(** * console_game_engine: the frame update cycle of [ConsoleGame]

    A shallow embedding of [src/console_game_engine/__init__.py]: the
    [_Board] class with its deep-copied baseline, the [_Player] movement
    resolution, the redraw [_update_and_display_board] with its clamp chain,
    and the loop body of [ConsoleGame.start] with its three update modes.

    Python lists are mutable objects with identity, so grids live in an
    object store ([heap]) and are handled through references; integers are
    [Z]; an exception is a value of [exn] returned in place of the result. *)

From stdpp Require Import base list strings.
From Stdlib Require Import ZArith QArith Lia.

Open Scope Z_scope.

(** ** The Python run time the engine relies on *)

(** The exceptions the engine can meet. [Blocked] is not one of Python's: it
    stands for a call that does not return ([msvcrt.getch] waiting for a key
    press that is not in the modelled input buffer). *)

Inductive exn : Type :=
| IndexError
| TypeError
| ZeroDivisionError
| ValueError
| UnicodeDecodeError
| AttributeError
| Blocked.

Inductive result (A : Type) : Type :=
| Return (a : A)
| Raise (e : exn).
Arguments Return {A} a.
Arguments Raise {A} e.

Definition is_return {A : Type} (r : result A) : bool :=
  match r with Return _ => true | Raise _ => false end.

(** A reference is an address in the object store. The store holds the list
    objects of a [list[list[str]]]: a row is a list of strings (immutable
    values, kept in place), a grid is a list of references to rows. *)
Abbreviation loc := nat (only parsing).

Inductive obj : Type :=
| Row (cells : list string)
| Grid (rows : list loc).

Abbreviation heap := (list obj) (only parsing).

(** Allocation puts the new object at the first unused address. *)
Definition alloc (h : heap) (o : obj) : loc * heap := (length h, h ++ [o]).

Definition newline : string := String (Ascii.ascii_of_nat 10) EmptyString.

(** [l[i]] for an integer [i]: Python counts a negative index from the end
    and raises IndexError outside [-len, len). *)
Definition py_index (len : nat) (i : Z) : option nat :=
  if (0 <=? i) && (i <? Z.of_nat len) then Some (Z.to_nat i)
  else if (- Z.of_nat len <=? i) && (i <? 0) then Some (Z.to_nat (Z.of_nat len + i))
  else None.

(** [copy.deepcopy] of a grid. The memo table maps each row object already
    copied to its copy, so rows shared inside the source grid stay shared
    inside the copy; strings are atomic and are not copied. Every list
    object of the result is freshly allocated. *)
Fixpoint memo_get (memo : list (loc * loc)) (r : loc) : option loc :=
  match memo with
  | [] => None
  | (k, v) :: memo' => if Nat.eqb k r then Some v else memo_get memo' r
  end.

Fixpoint deepcopy_rows (h : heap) (memo : list (loc * loc)) (rs : list loc)
  : result (list loc * list (loc * loc) * heap) :=
  match rs with
  | [] => Return ([], memo, h)
  | r :: rs' =>
      match memo_get memo r with
      | Some r' =>
          match deepcopy_rows h memo rs' with
          | Return (out, memo', h') => Return (r' :: out, memo', h')
          | Raise e => Raise e
          end
      | None =>
          match h !! r with
          | Some (Row cells) =>
              let '(r', h1) := alloc h (Row cells) in
              match deepcopy_rows h1 ((r, r') :: memo) rs' with
              | Return (out, memo', h') => Return (r' :: out, memo', h')
              | Raise e => Raise e
              end
          | _ => Raise TypeError
          end
      end
  end.

Definition deepcopy (h : heap) (g : loc) : result (loc * heap) :=
  match h !! g with
  | Some (Grid rs) =>
      match deepcopy_rows h [] rs with
      | Return (rs', _, h') => Return (alloc h' (Grid rs'))
      | Raise e => Raise e
      end
  | _ => Raise TypeError
  end.

(** The value a grid reference denotes in a store, when every object on the
    way is of the annotated type. *)
Fixpoint read_rows (h : heap) (rs : list loc) : option (list (list string)) :=
  match rs with
  | [] => Some []
  | r :: rs' =>
      match h !! r, read_rows h rs' with
      | Some (Row cells), Some v => Some (cells :: v)
      | _, _ => None
      end
  end.

Definition read_grid (h : heap) (g : loc) : option (list (list string)) :=
  match h !! g with
  | Some (Grid rs) => read_rows h rs
  | _ => None
  end.

(** The objects a grid is made of: the outer list and its rows. *)
Definition reachable (h : heap) (g : loc) (l : loc) : Prop :=
  l = g \/ exists rs, h !! g = Some (Grid rs) /\ l ∈ rs.

(** ** class _Board *)

Module _Board.

Record t : Type := {
  board : loc;
  x : Z;
  y : Z;
  _copy : loc
}.

(** [__init__]: [board] keeps the caller's list (no copy), [x] and [y] are
    the last valid outer and inner index, taken from the number of rows and
    from the length of the first row only; [_copy] is a deep copy. *)
Definition __init__ (h : heap) (b : loc) : result (t * heap) :=
  match h !! b with
  | Some (Grid rs) =>
      match rs with
      | [] => Raise IndexError
      | r0 :: _ =>
          match h !! r0 with
          | Some (Row cells) =>
              match deepcopy h b with
              | Return (c, h') =>
                  Return ({| board := b;
                             x := Z.of_nat (length rs) - 1;
                             y := Z.of_nat (length cells) - 1;
                             _copy := c |}, h')
              | Raise e => Raise e
              end
          | _ => Raise TypeError
          end
      end
  | _ => Raise TypeError
  end.

(** The text of a grid value: every row joined without separator and
    followed by a newline. *)
Fixpoint render (v : list (list string)) : string :=
  match v with
  | [] => EmptyString
  | row :: v' => (String.concat "" row +:+ newline) +:+ render v'
  end.

Definition set_board (g : loc) (self : t) : t :=
  {| board := g; x := x self; y := y self; _copy := _copy self |}.

Definition __str__ (h : heap) (self : t) : result string :=
  match read_grid h (board self) with
  | Some v => Return (render v)
  | None => Raise TypeError
  end.

Definition _original (h : heap) (self : t) : result (loc * heap) :=
  deepcopy h (_copy self).

Definition _original_as_string (h : heap) (self : t) : result string :=
  match _original h self with
  | Return (g, h1) =>
      match __init__ h1 g with
      | Return (b, h2) => __str__ h2 b
      | Raise e => Raise e
      end
  | Raise e => Raise e
  end.

End _Board.

(** ** class _Player *)

(** A callable handed to the engine is a reference to a function object. *)
Abbreviation FunctionType := nat (only parsing).

(** What [key in self.left] tests depends on the object given as the
    key-set: the default is a [str] (the test is substring containment), a
    game may pass a list, tuple or set of symbols (the test is membership). *)
Inductive keys : Type :=
| KeyStr (s : string)
| KeySet (l : list string).

Fixpoint substring_of (k s : string) : bool :=
  String.prefix k s ||
  match s with
  | EmptyString => false
  | String _ s' => substring_of k s'
  end.

Definition contains (ks : keys) (key : string) : bool :=
  match ks with
  | KeyStr s => substring_of key s
  | KeySet l => bool_decide (key ∈ l)
  end.

Module _Player.

(** [pos] is the two-element list [[pos[0], pos[1]]] built from
    [start_pos]; it belongs to the player alone. *)
Record t : Type := {
  char : string;
  pos : Z * Z;
  left : keys;
  right : keys;
  up : keys;
  down : keys;
  collideable : bool;
  action : option FunctionType
}.

Definition __init__ (character : string) (start_pos : Z * Z)
    (mov_u mov_l mov_d mov_r : keys) (collideable' : bool)
    (collide_action : option FunctionType) : t :=
  {| char := character; pos := start_pos;
     left := mov_l; right := mov_r; up := mov_u; down := mov_d;
     collideable := collideable'; action := collide_action |}.

Definition set_pos (self : t) (p : Z * Z) : t :=
  {| char := char self; pos := p;
     left := left self; right := right self; up := up self; down := down self;
     collideable := collideable self; action := action self |}.

(** [_DynamicEntity._change_position]: [pos[0] += x; pos[1] += y]. *)
Definition _change_position (self : t) (dx dy : Z) : t :=
  set_pos self (fst (pos self) + dx, snd (pos self) + dy).

(** [change_position]: the return value and the player afterwards. *)
Definition change_position (self : t) (key : string) : Z * t :=
  if contains (left self) key then (0, _change_position self (-1) 0)
  else if contains (right self) key then (0, _change_position self 1 0)
  else if contains (up self) key then (0, _change_position self 0 (-1))
  else if contains (down self) key then (0, _change_position self 0 1)
  else (-1, self).

End _Player.

(** ** class _Collectible *)

Inductive callback : Type :=
| given (f : FunctionType)
| do_nothing.

Module _Collectible.

Record t : Type := {
  char : string;
  pos : Z * Z;
  action : callback
}.

End _Collectible.

(** ** class ConsoleGame *)

(** What the game does to the terminal, oldest first. *)
Inductive console_event : Type :=
| Clear
| Writeline (text : string).

Module ConsoleGame.

(** The game object together with the part of the world it acts on: the
    object store of its grids, the terminal and the pending bytes of the
    console input buffer. [Players] and [Collectibles] are the two lists of
    [entities]; a player object is referred to by its index in [Players].
    The attributes that [initialize] creates start out here with the values
    [quit] gives them, and [interval] with the 1 of [initialize]; the loop
    reads none of them before [initialize] has made the game active. *)
Record t : Type := {
  board : _Board.t;
  Players : list _Player.t;
  Collectibles : list _Collectible.t;
  _active : bool;
  smart_updating : bool;
  interval_updating : bool;
  interval : Z;
  _pending_update : bool;
  preupdate : option FunctionType;
  postupdate : option FunctionType;
  on_key : option FunctionType;
  delay : Q;
  store : heap;
  console : list console_event;
  keyboard : list Z
}.

Definition set_board (b : _Board.t) (g : t) : t :=
  {| board := b; Players := Players g; Collectibles := Collectibles g;
     _active := _active g; smart_updating := smart_updating g;
     interval_updating := interval_updating g; interval := interval g;
     _pending_update := _pending_update g; preupdate := preupdate g;
     postupdate := postupdate g; on_key := on_key g; delay := delay g;
     store := store g; console := console g; keyboard := keyboard g |}.

Definition set_Players (ps : list _Player.t) (g : t) : t :=
  {| board := board g; Players := ps; Collectibles := Collectibles g;
     _active := _active g; smart_updating := smart_updating g;
     interval_updating := interval_updating g; interval := interval g;
     _pending_update := _pending_update g; preupdate := preupdate g;
     postupdate := postupdate g; on_key := on_key g; delay := delay g;
     store := store g; console := console g; keyboard := keyboard g |}.

Definition set_Collectibles (cs : list _Collectible.t) (g : t) : t :=
  {| board := board g; Players := Players g; Collectibles := cs;
     _active := _active g; smart_updating := smart_updating g;
     interval_updating := interval_updating g; interval := interval g;
     _pending_update := _pending_update g; preupdate := preupdate g;
     postupdate := postupdate g; on_key := on_key g; delay := delay g;
     store := store g; console := console g; keyboard := keyboard g |}.

Definition set__pending_update (b : bool) (g : t) : t :=
  {| board := board g; Players := Players g; Collectibles := Collectibles g;
     _active := _active g; smart_updating := smart_updating g;
     interval_updating := interval_updating g; interval := interval g;
     _pending_update := b; preupdate := preupdate g;
     postupdate := postupdate g; on_key := on_key g; delay := delay g;
     store := store g; console := console g; keyboard := keyboard g |}.

Definition set_store (h : heap) (g : t) : t :=
  {| board := board g; Players := Players g; Collectibles := Collectibles g;
     _active := _active g; smart_updating := smart_updating g;
     interval_updating := interval_updating g; interval := interval g;
     _pending_update := _pending_update g; preupdate := preupdate g;
     postupdate := postupdate g; on_key := on_key g; delay := delay g;
     store := h; console := console g; keyboard := keyboard g |}.

Definition set_console (c : list console_event) (g : t) : t :=
  {| board := board g; Players := Players g; Collectibles := Collectibles g;
     _active := _active g; smart_updating := smart_updating g;
     interval_updating := interval_updating g; interval := interval g;
     _pending_update := _pending_update g; preupdate := preupdate g;
     postupdate := postupdate g; on_key := on_key g; delay := delay g;
     store := store g; console := c; keyboard := keyboard g |}.

Definition set_keyboard (k : list Z) (g : t) : t :=
  {| board := board g; Players := Players g; Collectibles := Collectibles g;
     _active := _active g; smart_updating := smart_updating g;
     interval_updating := interval_updating g; interval := interval g;
     _pending_update := _pending_update g; preupdate := preupdate g;
     postupdate := postupdate g; on_key := on_key g; delay := delay g;
     store := store g; console := console g; keyboard := k |}.

(** A method runs on the game and leaves it in a new state whether it
    returns or raises. *)
Definition M (A : Type) : Type := t -> result A * t.

Definition ret {A : Type} (a : A) : M A := fun g => (Return a, g).

Definition raise {A : Type} (e : exn) : M A := fun g => (Raise e, g).

Definition bind {A B : Type} (m : M A) (k : A -> M B) : M B :=
  fun g =>
    match m g with
    | (Return a, g') => k a g'
    | (Raise e, g') => (Raise e, g')
    end.

Notation "x <- m ;; k" := (bind m (fun x => k))
  (at level 100, m at next level, right associativity).
Notation "m ;;; k" := (bind m (fun _ => k))
  (at level 100, right associativity).

(** [__init__]: builds the [_Board] of the given grid; no entity yet,
    not active. *)
Definition __init__ (h : heap) (b : loc) : result t :=
  match _Board.__init__ h b with
  | Return (bd, h') =>
      Return {| board := bd; Players := []; Collectibles := [];
                _active := false; smart_updating := false;
                interval_updating := false; interval := 1;
                _pending_update := false; preupdate := None;
                postupdate := None; on_key := None; delay := 0%Q;
                store := h'; console := []; keyboard := [] |}
  | Raise e => Raise e
  end.

(** [msvcrt.getch]: takes the next byte of the input buffer; on an empty
    buffer the call waits. *)
Definition getch : M Z :=
  fun g =>
    match keyboard g with
    | [] => (Raise Blocked, g)
    | b :: k => (Return b, set_keyboard k g)
    end.

Definition kbhit (g : t) : bool :=
  match keyboard g with [] => false | _ => true end.

Definition get : M t := fun g => (Return g, g).

(** [_get_input]: the sentinel byte 0xe0 announces a scan code, any other
    byte is decoded (UTF-8, so a lone byte above 0x7f does not decode). *)
Definition _get_input : M string :=
  first <- getch;;
  if first =? 224 then
    second <- getch;;
    ret (if second =? 72 then "up"%string
         else if second =? 80 then "down"%string
         else if second =? 77 then "right"%string
         else if second =? 75 then "left"%string
         else "NULL"%string)
  else if first <? 128 then
    ret (String (Ascii.ascii_of_nat (Z.to_nat first)) EmptyString)
  else raise UnicodeDecodeError.

(** [initialize]: the warning and the five seconds of sleep on a double
    request leave the state alone. *)
Definition initialize (smart_updating' interval_updating' : bool)
    (preupdate' postupdate' on_key' : option FunctionType)
    (delay_per_iteration : Q) : M unit :=
  fun g =>
    (Return tt,
     {| board := board g; Players := Players g; Collectibles := Collectibles g;
        _active := true; smart_updating := smart_updating';
        interval_updating := interval_updating'; interval := 1;
        _pending_update := true; preupdate := preupdate';
        postupdate := postupdate'; on_key := on_key';
        delay := delay_per_iteration;
        store := store g; console := console g; keyboard := keyboard g |}).

Definition quit : M unit :=
  fun g =>
    (Return tt,
     {| board := board g; Players := Players g; Collectibles := Collectibles g;
        _active := false; smart_updating := false;
        interval_updating := false; interval := interval g;
        _pending_update := false; preupdate := None;
        postupdate := None; on_key := None; delay := 0%Q;
        store := store g; console := console g; keyboard := keyboard g |}).

(** [change_player_position]: the player is called first, the flag is set
    second. Handing over something that is no player of the game fails on
    the first line. *)
Definition change_player_position (player : nat) (key : string) : M Z :=
  fun g =>
    match Players g !! player with
    | None => (Raise AttributeError, g)
    | Some p =>
        let '(res, p') := _Player.change_position p key in
        (Return res,
         set__pending_update true (set_Players (<[player := p']> (Players g)) g))
    end.

(** The chain under [#IndexError Protection]: [player_x] is [pos[1]] and is
    compared with [board.x], [player_y] is [pos[0]] and is compared with
    [board.y]. Gives the player with its position written back and the two
    indices used for the placement. *)
Definition index_error_protection (bd : _Board.t) (player : _Player.t)
  : _Player.t * Z * Z :=
  let player_x := snd (_Player.pos player) in
  let player_y := fst (_Player.pos player) in
  if player_x >? _Board.x bd then
    let diff_x := player_x - _Board.x bd in
    let player_x := player_x - diff_x in
    (_Player.set_pos player (fst (_Player.pos player), player_x),
     player_x, player_y)
  else if player_y >? _Board.y bd then
    let diff_y := player_y - _Board.y bd in
    let player_y := player_y - diff_y in
    (_Player.set_pos player (player_y, snd (_Player.pos player)),
     player_x, player_y)
  else if player_x <? 0 then
    (_Player.set_pos player (fst (_Player.pos player), 0), 0, player_y)
  else if player_y <? 0 then
    (_Player.set_pos player (0, snd (_Player.pos player)), player_x, 0)
  else (player, player_x, player_y).

(** [self.board.board[player_x][player_y] = char]: two list indexings and
    an assignment into the row object that is found. *)
Definition place (h : heap) (g : loc) (player_x player_y : Z) (c : string)
  : result heap :=
  match h !! g with
  | Some (Grid rs) =>
      match py_index (length rs) player_x with
      | None => Raise IndexError
      | Some i =>
          match rs !! i with
          | Some r =>
              match h !! r with
              | Some (Row cells) =>
                  match py_index (length cells) player_y with
                  | None => Raise IndexError
                  | Some j => Return (<[r := Row (<[j := c]> cells)]> h)
                  end
              | _ => Raise TypeError
              end
          | None => Raise IndexError
          end
      end
  | _ => Raise TypeError
  end.

(** The loop over [entities["Players"]]: the players after the loop (or
    after the player on which it raised) and the store. *)
Fixpoint display_players (bd : _Board.t) (h : heap) (ps : list _Player.t)
  : result unit * heap * list _Player.t :=
  match ps with
  | [] => (Return tt, h, [])
  | player :: ps' =>
      let '(player', player_x, player_y) := index_error_protection bd player in
      match place h (_Board.board bd) player_x player_y (_Player.char player') with
      | Return h' =>
          let '(r, h'', ps'') := display_players bd h' ps' in
          (r, h'', player' :: ps'')
      | Raise e => (Raise e, h, player' :: ps')
      end
  end.

Definition _update_and_display_board : M unit :=
  fun g =>
    let g1 := set_console (console g ++ [Clear]) g in
    match _Board._original (store g1) (board g1) with
    | Raise e => (Raise e, g1)
    | Return (w, h1) =>
        let bd := _Board.set_board w (board g1) in
        let '(r, h2, ps) := display_players bd h1 (Players g1) in
        let g2 := set_Players ps (set_store h2 (set_board bd g1)) in
        match r with
        | Raise e => (Raise e, g2)
        | Return _ =>
            match _Board.__str__ h2 bd with
            | Return s => (Return tt, set_console (console g2 ++ [Writeline s]) g2)
            | Raise e => (Raise e, g2)
            end
        end
    end.

Definition add_player (character : string) (start_pos : Z * Z)
    (mov_u mov_l mov_d mov_r : keys) (collideable : bool)
    (collide_action : option FunctionType) : M nat :=
  fun g =>
    let player :=
      _Player.__init__ character start_pos mov_u mov_l mov_d mov_r
        collideable collide_action in
    (Return (length (Players g)), set_Players (Players g ++ [player]) g).

Definition add_collectible (character : string) (pos : Z * Z)
    (action : option FunctionType) : M nat :=
  fun g =>
    let action' := match action with Some f => given f | None => do_nothing end in
    let collectible :=
      {| _Collectible.char := character; _Collectible.pos := pos;
         _Collectible.action := action' |} in
    (Return (length (Collectibles g)),
     set_Collectibles (Collectibles g ++ [collectible]) g).

(** *** Hooks

    [preupdate], [postupdate] and [on_key] are code of the game author. A
    hook is modelled by the calls it makes on the game and on its players,
    chosen from the state it finds and, for [on_key], from the key. *)
Inductive call : Type :=
| call_initialize (smart_updating' interval_updating' : bool)
    (preupdate' postupdate' on_key' : option FunctionType)
    (delay_per_iteration : Q)
| call_quit
| call_change_player_position (player : nat) (key : string)
| call_add_player (character : string) (start_pos : Z * Z)
    (mov_u mov_l mov_d mov_r : keys) (collideable : bool)
    (collide_action : option FunctionType)
| call_add_collectible (character : string) (pos : Z * Z)
    (action : option FunctionType)
| call_player_change_position (player : nat) (key : string).

Definition hooks : Type := FunctionType -> option string -> t -> list call.

Definition run_call (c : call) : M unit :=
  match c with
  | call_initialize su iu pre post onk d => initialize su iu pre post onk d
  | call_quit => quit
  | call_change_player_position player key =>
      change_player_position player key;;; ret tt
  | call_add_player ch sp u l d r co ca =>
      add_player ch sp u l d r co ca;;; ret tt
  | call_add_collectible ch p a => add_collectible ch p a;;; ret tt
  | call_player_change_position player key =>
      fun g =>
        match Players g !! player with
        | None => (Raise AttributeError, g)
        | Some p =>
            (Return tt,
             set_Players
               (<[player := snd (_Player.change_position p key)]> (Players g)) g)
        end
  end.

Fixpoint run_calls (cs : list call) : M unit :=
  match cs with
  | [] => ret tt
  | c :: cs' => run_call c;;; run_calls cs'
  end.

(** [if self.hook: self.hook(...)]. *)
Definition invoke (env : hooks) (f : option FunctionType) (arg : option string)
  : M unit :=
  fun g =>
    match f with
    | None => (Return tt, g)
    | Some f' => run_calls (env f' arg g) g
    end.

(** [time.sleep] refuses a negative length. *)
Definition sleep (d : Q) : M unit :=
  if Qle_bool 0 d then ret tt else raise ValueError.

(** Lines 197 to 206 of [start]: which mode redraws when. *)
Definition update_stage (iteration : Z) : M unit :=
  fun g =>
    if smart_updating g then
      if _pending_update g then
        (_update_and_display_board;;;
         fun g' => (Return tt, set__pending_update false g')) g
      else (Return tt, g)
    else if interval_updating g then
      if interval g =? 0 then (Raise ZeroDivisionError, g)
      else if iteration mod interval g =? 0 then _update_and_display_board g
      else (Return tt, g)
    else _update_and_display_board g.

(** Lines 190 to 194: the key, when one is waiting, goes to [on_key]. *)
Definition poll_key (env : hooks) : M unit :=
  g1 <- get;;
  if kbhit g1 then
    key <- _get_input;;
    g2 <- get;;
    invoke env (on_key g2) (Some key)
  else ret tt.

(** What a turn of the loop does before the update ... *)
Definition before_update (env : hooks) : M unit :=
  g0 <- get;;
  invoke env (preupdate g0) None;;;
  poll_key env.

(** ... and after it. *)
Definition after_update (env : hooks) : M unit :=
  g3 <- get;;
  invoke env (postupdate g3) None;;;
  g4 <- get;;
  sleep (delay g4).

(** One turn of the [while] loop of [start]. *)
Definition loop_body (env : hooks) (iteration : Z) : M unit :=
  before_update env;;;
  update_stage iteration;;;
  after_update env.

(** [start]: the loop, cut after [fuel] turns ([None] when it is still
    running then). *)
Fixpoint start_from (fuel : nat) (env : hooks) (iteration : Z) (g : t)
  : option (result unit * t) :=
  if _active g then
    match fuel with
    | O => None
    | S fuel' =>
        match loop_body env iteration g with
        | (Return _, g') => start_from fuel' env (iteration + 1) g'
        | (Raise e, g') => Some (Raise e, g')
        end
    end
  else Some (Return tt, g).

Definition start (fuel : nat) (env : hooks) : t -> option (result unit * t) :=
  start_from fuel env 0.

(** The number of redraws begun so far: each one starts by clearing the
    terminal, and nothing else clears it. *)
Definition is_clear (e : console_event) : bool :=
  match e with Clear => true | Writeline _ => false end.

Definition redraws (g : t) : nat :=
  length (List.filter is_clear (console g)).

End ConsoleGame.

(** ** Building inputs

    A grid literal of the game author: every row is a new list object, the
    grid a new list of them. *)
Fixpoint new_rows (h : heap) (v : list (list string)) : list loc * heap :=
  match v with
  | [] => ([], h)
  | cells :: v' =>
      let '(r, h1) := alloc h (Row cells) in
      let '(rs, h2) := new_rows h1 v' in
      (r :: rs, h2)
  end.

Definition new_grid (h : heap) (v : list (list string)) : loc * heap :=
  let '(rs, h1) := new_rows h v in
  alloc h1 (Grid rs).

(** [[[c] * w] * n] shares one row object between all the rows. *)
Definition new_shared_grid (h : heap) (cells : list string) (n : nat)
  : loc * heap :=
  let '(r, h1) := alloc h (Row cells) in
  alloc h1 (Grid (replicate n r)).

(** [ConsoleGame(board)] on a grid literal, in an empty store. *)
Definition new_game (v : list (list string)) : result ConsoleGame.t :=
  let '(b, h) := new_grid [] v in
  ConsoleGame.__init__ h b.

Definition blank (rows cols : nat) : list (list string) :=
  replicate rows (replicate cols " "%string).

(** ** Vocabulary of the specification

    [board.x] is the number of rows less one and bounds [pos[1]], the index
    into the list of rows, which the up and down keys move: the row.
    [board.y] is the length of the first row less one and bounds [pos[0]],
    the index inside a row, which the left and right keys move: the
    column. *)
Definition maxRow (bd : _Board.t) : Z := _Board.x bd.
Definition maxCol (bd : _Board.t) : Z := _Board.y bd.
Definition row (p : _Player.t) : Z := snd (_Player.pos p).
Definition col (p : _Player.t) : Z := fst (_Player.pos p).

Definition row_in_bounds (bd : _Board.t) (p : _Player.t) : Prop :=
  0 <= row p <= maxRow bd.
Definition col_in_bounds (bd : _Board.t) (p : _Player.t) : Prop :=
  0 <= col p <= maxCol bd.
Definition in_bounds (bd : _Board.t) (p : _Player.t) : Prop :=
  col_in_bounds bd p /\ row_in_bounds bd p.

(** Out of bounds on no more than one of the two axes. *)
Definition one_axis_at_most (bd : _Board.t) (p : _Player.t) : Prop :=
  col_in_bounds bd p \/ row_in_bounds bd p.

(** The player the clamp chain writes back. *)
Definition clamped (bd : _Board.t) (p : _Player.t) : _Player.t :=
  fst (fst (ConsoleGame.index_error_protection bd p)).

(** A grid of [H] rows that all hold [W] cells. *)
Definition shape (h : heap) (g : loc) (H W : nat) : Prop :=
  exists v, read_grid h g = Some v /\ length v = H /\
    Forall (fun cells => length cells = W) v.

(** The baseline of the game's board is such a grid, and [x] and [y] are
    its last indices. *)
Definition board_ready (g : ConsoleGame.t) (H W : nat) : Prop :=
  shape (ConsoleGame.store g) (_Board._copy (ConsoleGame.board g)) H W /\
  (1 <= H)%nat /\ (1 <= W)%nat /\
  _Board.x (ConsoleGame.board g) = Z.of_nat H - 1 /\
  _Board.y (ConsoleGame.board g) = Z.of_nat W - 1.

Definition rectangular (v : list (list string)) : bool :=
  match v with
  | [] => true
  | r0 :: v' => forallb (fun r => Nat.eqb (length r) (length r0)) v'
  end.

(** The calls of a hook that neither mark the game dirty nor change its
    update mode. *)
Definition quiet (c : ConsoleGame.call) : Prop :=
  match c with
  | ConsoleGame.call_add_player _ _ _ _ _ _ _ _ => True
  | ConsoleGame.call_add_collectible _ _ _ => True
  | ConsoleGame.call_player_change_position _ _ => True
  | _ => False
  end.

(** A method keeps a property of the game, whether it returns or raises. *)
Definition preserves {A : Type} (P : ConsoleGame.t -> Prop) (m : ConsoleGame.M A)
  : Prop :=
  forall g, P g -> P (snd (m g)).

(** The first key-set of a list that holds the key decides the move. *)
Fixpoint first_match (sets : list (keys * (Z * Z))) (key : string)
  : option (Z * Z) :=
  match sets with
  | [] => None
  | (ks, d) :: sets' => if contains ks key then Some d else first_match sets' key
  end.

(** What the memo table promises while a copy is under way: every entry
    leads from a row to a new row that holds the same cells. *)
Definition memo_ok (n : nat) (h : heap) (memo : list (loc * loc)) : Prop :=
  forall r r', memo_get memo r = Some r' ->
    (n <= r')%nat /\
    exists cells, h !! r = Some (Row cells) /\ h !! r' = Some (Row cells).

(** Unfolds the calls of the public interface down to the state they
    build. *)
Ltac open_call :=
  unfold ConsoleGame.run_call, ConsoleGame.initialize, ConsoleGame.quit,
    ConsoleGame.change_player_position, ConsoleGame.add_player,
    ConsoleGame.add_collectible, ConsoleGame.bind, ConsoleGame.ret;
  repeat match goal with
    | |- context [ConsoleGame.Players ?g !! ?i] =>
        destruct (ConsoleGame.Players g !! i)
    | |- context [_Player.change_position ?p ?k] =>
        destruct (_Player.change_position p k)
    end;
  simpl.

(** ** Further vocabulary *)

(** [add_player(character, start_pos)] with every other parameter left at
    its default: the four key-sets are the strings ["up"], ["left"],
    ["down"] and ["right"]. *)
Definition add_player_by_default (character : string) (start_pos : Z * Z)
  : ConsoleGame.M nat :=
  ConsoleGame.add_player character start_pos (KeyStr "up") (KeyStr "left")
    (KeyStr "down") (KeyStr "right") false None.

(** What [bytes.decode] gives for one byte below 0x80. *)
Definition chr (b : Z) : string :=
  String (Ascii.ascii_of_nat (Z.to_nat b)) EmptyString.

(** The rows of the grid object at an address, none when there is no grid
    there. *)
Definition rows_of (h : heap) (g : loc) : list loc :=
  match h !! g with
  | Some (Grid rs) => rs
  | _ => []
  end.

(** The baseline [_copy] of the game's board holds the value [v]. *)
Definition baseline (g : ConsoleGame.t) (v : list (list string)) : Prop :=
  read_grid (ConsoleGame.store g) (_Board._copy (ConsoleGame.board g)) = Some v.

(** The same, no row object standing for two rows. *)
Definition unshared_baseline (g : ConsoleGame.t) (v : list (list string))
  : Prop :=
  exists rs,
    ConsoleGame.store g !! _Board._copy (ConsoleGame.board g) = Some (Grid rs) /\
    NoDup rs /\ read_rows (ConsoleGame.store g) rs = Some v.

(** A grid value with the glyph of a player put at the player's position,
    and with those of a list of players put one after the other. *)
Definition paint_one (v : list (list string)) (p : _Player.t)
  : list (list string) :=
  match v !! Z.to_nat (row p) with
  | Some cells =>
      <[Z.to_nat (row p) := <[Z.to_nat (col p) := _Player.char p]> cells]> v
  | None => v
  end.

Definition paint (v : list (list string)) (ps : list _Player.t)
  : list (list string) :=
  fold_left paint_one ps v.


(** The store after a grid of value [v] has been copied into new objects on
    top of [h]: one row object for each row, then the grid. *)
Definition canvas (h : heap) (v : list (list string)) : heap :=
  h ++ (Row <$> v) ++ [Grid (seq (length h) (length v))].


(** The cell of a grid value at a row and a column, if there is one. *)
Definition cell (v : list (list string)) (i j : nat) : option string :=
  match v !! i with
  | Some cells => cells !! j
  | None => None
  end.

(** The cell a player stands on, its coordinates taken as list indices. *)
Definition stands_on (p : _Player.t) : nat * nat :=
  (Z.to_nat (row p), Z.to_nat (col p)).


(** Every cell of a grid value is one character. *)
Definition single_characters (v : list (list string)) : Prop :=
  Forall (Forall (fun c => String.length c = 1%nat)) v.

(** * Properties *)

(** ** The object store *)

Lemma lookup_alloc (h : heap) (o : obj) : (h ++ [o]) !! length h = Some o.
Proof. by apply list_lookup_middle. Qed.

Lemma read_rows_extend (h ext : heap) (rs : list loc) (v : list (list string)) :
  read_rows h rs = Some v -> read_rows (h ++ ext) rs = Some v.
Proof.
  revert v. induction rs as [|r rs IH]; intros v; simpl; [done|].
  destruct (h !! r) as [[cells|?]|] eqn:Hr; try done.
  destruct (read_rows h rs) as [v'|] eqn:Hv; try done.
  intros [= <-].
  rewrite (lookup_app_l_Some _ _ _ _ Hr), (IH v' eq_refl). done.
Qed.

Lemma read_rows_below (h : heap) (rs : list loc) (v : list (list string)) :
  read_rows h rs = Some v -> Forall (fun r => (r < length h)%nat) rs.
Proof.
  revert v. induction rs as [|r rs IH]; intros v; simpl; [constructor|].
  destruct (h !! r) as [[cells|?]|] eqn:Hr; try done.
  destruct (read_rows h rs) as [v'|] eqn:Hv; try done.
  intros _. constructor; [by eapply lookup_lt_Some | by eapply IH].
Qed.

Lemma read_rows_agree (h h2 : heap) (rs : list loc) :
  Forall (fun r => h2 !! r = h !! r) rs -> read_rows h2 rs = read_rows h rs.
Proof.
  induction 1 as [|r rs Hr _ IH]; simpl; [done|]. rewrite Hr, IH. done.
Qed.

Lemma memo_ok_extend n h ext memo :
  memo_ok n h memo -> memo_ok n (h ++ ext) memo.
Proof.
  intros Hm r r' Hg. destruct (Hm r r' Hg) as (Hn & cells & H1 & H2).
  split; [done|]. exists cells.
  split; by apply lookup_app_l_Some.
Qed.

Lemma deepcopy_rows_spec (n : nat) (rs : list loc) :
  forall (h : heap) (memo : list (loc * loc)) (v : list (list string)),
    (n <= length h)%nat -> memo_ok n h memo -> read_rows h rs = Some v ->
    exists out memo' ext,
      deepcopy_rows h memo rs = Return (out, memo', h ++ ext) /\
      read_rows (h ++ ext) out = Some v /\
      Forall (fun l => (n <= l)%nat) out.
Proof.
  induction rs as [|r rs IH]; intros h memo v Hn Hm; simpl.
  - intros [= <-]. exists [], memo, []. rewrite app_nil_r. by repeat split.
  - destruct (h !! r) as [[cells|?]|] eqn:Hr; try done.
    destruct (read_rows h rs) as [v'|] eqn:Hv; try done.
    intros [= <-].
    destruct (memo_get memo r) as [r'|] eqn:Hg.
    + destruct (IH h memo v' Hn Hm Hv) as (out & memo' & ext & -> & Hread & Hfresh).
      exists (r' :: out), memo', ext. split; [done|].
      destruct (Hm r r' Hg) as (Hr' & cells' & H1 & H2).
      assert (cells' = cells) as -> by congruence.
      split; [|by constructor].
      simpl. rewrite (lookup_app_l_Some _ _ _ _ H2), Hread. done.
    + set (h1 := h ++ [Row cells]).
      assert (Hm1 : memo_ok n h1 ((r, length h) :: memo)).
      { intros k k'. simpl. destruct (Nat.eqb r k) eqn:Hk.
        - apply Nat.eqb_eq in Hk as <-. intros [= <-]. split; [done|].
          exists cells. split; [by apply lookup_app_l_Some|].
          apply lookup_alloc.
        - intros Hg'. by apply (memo_ok_extend n h [Row cells] memo Hm). }
      assert (Hn1 : (n <= length h1)%nat).
      { unfold h1. rewrite length_app. simpl. lia. }
      destruct (IH h1 _ v' Hn1 Hm1 (read_rows_extend h _ rs v' Hv))
        as (out & memo' & ext & Hcopy & Hread & Hfresh).
      exists (length h :: out), memo', ([Row cells] ++ ext).
      unfold alloc. cbv beta iota. rewrite app_assoc. fold h1.
      rewrite Hcopy. split; [done|].
      split; [|by constructor].
      simpl. assert (Hl : (h1 ++ ext) !! length h = Some (Row cells)).
      { apply lookup_app_l_Some. apply lookup_alloc. }
      rewrite Hl, Hread. done.
Qed.

(** [copy.deepcopy] of a well-typed grid returns; the store only grows; the
    copy denotes the same value and is made of new objects only. *)
Lemma deepcopy_spec (h : heap) (g : loc) (v : list (list string)) :
  read_grid h g = Some v ->
  exists g' ext,
    deepcopy h g = Return (g', h ++ ext) /\
    read_grid (h ++ ext) g' = Some v /\
    forall l, reachable (h ++ ext) g' l -> (length h <= l)%nat.
Proof.
  unfold read_grid, deepcopy.
  destruct (h !! g) as [[?|rs]|] eqn:Hg; try done. intros Hv.
  destruct (deepcopy_rows_spec (length h) rs h [] v)
    as (out & memo' & ext & -> & Hread & Hfresh);
    [done| by intros ? ? [=] | done |].
  exists (length (h ++ ext)), (ext ++ [Grid out]). unfold alloc.
  rewrite app_assoc. split; [done|].
  assert (Hl : ((h ++ ext) ++ [Grid out]) !! length (h ++ ext) = Some (Grid out)).
  { apply lookup_alloc. }
  split.
  - rewrite Hl. by apply read_rows_extend.
  - intros l [-> | (rs' & Hrs' & Hin)].
    + rewrite length_app. lia.
    + rewrite Hl in Hrs'. injection Hrs' as <-.
      rewrite Forall_forall in Hfresh. by apply Hfresh.
Qed.

(** A grid read in a store reads the same in any store that agrees with it
    on the addresses in use. *)
Lemma read_grid_agree (h h2 : heap) (g : loc) (v : list (list string)) :
  read_grid h g = Some v ->
  (forall l, (l < length h)%nat -> h2 !! l = h !! l) ->
  read_grid h2 g = Some v.
Proof.
  unfold read_grid. destruct (h !! g) as [[?|rs]|] eqn:Hg; try done.
  intros Hv Hagree.
  rewrite (Hagree g) by (by eapply lookup_lt_Some). rewrite Hg.
  rewrite <- Hv. apply read_rows_agree.
  eapply Forall_impl; [by eapply read_rows_below|]. simpl. auto.
Qed.

(** ** The board *)

(** Construction on a well-typed grid with a first row. *)
Lemma board_init_spec (h : heap) (b : loc) (r0 : list string) (v : list (list string)) :
  read_grid h b = Some (r0 :: v) ->
  exists c ext,
    _Board.__init__ h b =
      Return ({| _Board.board := b;
                 _Board.x := Z.of_nat (length (r0 :: v)) - 1;
                 _Board.y := Z.of_nat (length r0) - 1;
                 _Board._copy := c |}, h ++ ext) /\
    read_grid (h ++ ext) c = Some (r0 :: v) /\
    forall l, reachable (h ++ ext) c l -> (length h <= l)%nat.
Proof.
  intros Hv. destruct (deepcopy_spec h b _ Hv) as (c & ext & Hcopy & Hread & Hfresh).
  exists c, ext. split; [|done].
  unfold _Board.__init__. unfold read_grid in Hv.
  destruct (h !! b) as [[?|rs]|] eqn:Hb; try done.
  destruct rs as [|r rs]; simpl in Hv; [done|].
  destruct (h !! r) as [[cells|?]|] eqn:Hr; try done.
  destruct (read_rows h rs) as [v'|] eqn:Hrs; try done.
  injection Hv as -> ->. rewrite Hcopy.
  assert (Hlen : length rs = length v); [|by simpl length; rewrite Hlen].
  clear -Hrs. revert v Hrs. induction rs as [|k rs IH]; intros v; simpl.
  - by intros [= <-].
  - destruct (h !! k) as [[?|?]|]; try done.
    destruct (read_rows h rs) as [w|]; try done.
    intros [= <-]. simpl. f_equal. by apply IH.
Qed.

(** Claim C7. For every board built from a grid holding the value
    [v], the text of the board at construction is [render v]; the grid that
    [_original] (the reset) returns renders to that same text, and so does
    [_original_as_string]; the returned grid shares no list object with the
    baseline [_copy]; and in every store that differs from the one after the
    reset only in the objects of the returned grid (and in later
    allocations), a further reset still returns a grid of value [v] and of
    that text. *)
Theorem reset_roundtrip_without_aliasing
    (h : heap) (b : loc) (v : list (list string)) :
  read_grid h b = Some v -> v <> [] ->
  exists B h0,
    _Board.__init__ h b = Return (B, h0) /\
    _Board.__str__ h0 B = Return (_Board.render v) /\
    _Board._original_as_string h0 B = Return (_Board.render v) /\
    exists g h1,
      _Board._original h0 B = Return (g, h1) /\
      _Board.__str__ h1 (_Board.set_board g B) = Return (_Board.render v) /\
      (forall l, reachable h1 g l -> ~ reachable h1 (_Board._copy B) l) /\
      forall h2,
        (forall l, (l < length h1)%nat -> ~ reachable h1 g l -> h2 !! l = h1 !! l) ->
        exists g' h3,
          _Board._original h2 B = Return (g', h3) /\
          read_grid h3 g' = Some v /\
          _Board.__str__ h3 (_Board.set_board g' B) = Return (_Board.render v).
Proof.
  intros Hv Hne. destruct v as [|r0 v]; [done|]. clear Hne.
  destruct (board_init_spec h b r0 v Hv) as (c & ext & Hinit & Hc & Hfc).
  set (B := {| _Board.board := b; _Board.x := _; _Board.y := _;
               _Board._copy := c |}) in Hinit.
  set (h0 := h ++ ext) in *.
  destruct (deepcopy_spec h0 c _ Hc) as (g & ext1 & Hcopy & Hg & Hfg).
  set (h1 := h0 ++ ext1) in *.
  assert (Hb0 : read_grid h0 b = Some (r0 :: v)).
  { apply (read_grid_agree h); [done|]. intros l Hl. by apply lookup_app_l. }
  exists B, h0. split; [done|]. split.
  { unfold _Board.__str__. simpl. by rewrite Hb0. }
  split.
  { unfold _Board._original_as_string, _Board._original. simpl. rewrite Hcopy.
    destruct (board_init_spec h1 g r0 v Hg) as (c2 & ext2 & -> & _ & _).
    unfold _Board.__str__. simpl.
    rewrite (read_grid_agree h1 (h1 ++ ext2) g _ Hg); [done|].
    intros l Hl. by apply lookup_app_l. }
  exists g, h1. split; [done|]. split.
  { unfold _Board.__str__. simpl. by rewrite Hg. }
  assert (Hbelow : forall l, reachable h1 c l -> (l < length h0)%nat).
  { unfold read_grid in Hc. intros l [-> | (rs & Hrs & Hin)].
    - destruct (h0 !! c) eqn:Hl; [|done]. by eapply lookup_lt_Some.
    - destruct (h0 !! c) as [[?|rs0]|] eqn:Hl; try done.
      unfold h1 in Hrs. rewrite (lookup_app_l_Some _ _ _ _ Hl) in Hrs.
      injection Hrs as <-. apply read_rows_below in Hc.
      rewrite Forall_forall in Hc. by apply Hc. }
  split.
  { intros l Hl Hl'. apply Hfg in Hl. apply Hbelow in Hl'. lia. }
  intros h2 Hagree.
  assert (Hc2 : read_grid h2 c = Some (r0 :: v)).
  { apply (read_grid_agree h0); [done|]. intros l Hl.
    rewrite Hagree.
    - by apply lookup_app_l.
    - unfold h1. rewrite length_app. lia.
    - intros Hr. apply Hfg in Hr. lia. }
  destruct (deepcopy_spec h2 c _ Hc2) as (g' & ext' & Hcopy' & Hg' & _).
  exists g', (h2 ++ ext'). split; [done|]. split; [done|].
  unfold _Board.__str__. simpl. by rewrite Hg'.
Qed.

(** The theorem at a three by two grid in an empty store. *)
Lemma reset_roundtrip_without_aliasing_witness :
  let v := [["a"; "b"]; ["c"; "d"]; ["e"; "f"]]%string in
  let '(b, h) := new_grid [] v in
  exists B h0,
    _Board.__init__ h b = Return (B, h0) /\
    _Board.__str__ h0 B = Return (_Board.render v) /\
    _Board._original_as_string h0 B = Return (_Board.render v) /\
    exists g h1,
      _Board._original h0 B = Return (g, h1) /\
      _Board.__str__ h1 (_Board.set_board g B) = Return (_Board.render v) /\
      (forall l, reachable h1 g l -> ~ reachable h1 (_Board._copy B) l) /\
      forall h2,
        (forall l, (l < length h1)%nat -> ~ reachable h1 g l -> h2 !! l = h1 !! l) ->
        exists g' h3,
          _Board._original h2 B = Return (g', h3) /\
          read_grid h3 g' = Some v /\
          _Board.__str__ h3 (_Board.set_board g' B) = Return (_Board.render v).
Proof.
  apply (reset_roundtrip_without_aliasing _ _
           [["a"; "b"]; ["c"; "d"]; ["e"; "f"]]%string).
  - reflexivity.
  - discriminate.
Defined.

(** Against claim C8 as worded: a grid whose rows have two and one cells
    is accepted by the constructor. *)
Lemma ragged_grid_is_accepted :
  let v := [["a"; "b"]; ["c"]]%string in
  rectangular v = false /\
  let '(b, h) := new_grid [] v in
  is_return (_Board.__init__ h b) = true.
Proof. split; reflexivity. Qed.

(** Claim C8, as the code has it. The constructor compares no row lengths:
    on every grid with a first row, ragged or not, it returns a board whose
    [x] is the number of rows less one and whose [y] is the length of the
    first row less one; it raises (IndexError) only on a grid without
    rows. *)
Theorem board_construction_reads_first_row_only
    (h : heap) (b : loc) (v : list (list string)) :
  read_grid h b = Some v ->
  match v with
  | [] => _Board.__init__ h b = Raise IndexError
  | r0 :: _ =>
      exists B h',
        _Board.__init__ h b = Return (B, h') /\
        _Board.board B = b /\
        _Board.x B = Z.of_nat (length v) - 1 /\
        _Board.y B = Z.of_nat (length r0) - 1
  end.
Proof.
  intros Hv. destruct v as [|r0 v].
  - unfold _Board.__init__. unfold read_grid in Hv.
    destruct (h !! b) as [[?|rs]|]; try done.
    destruct rs as [|r rs]; [done|]. simpl in Hv.
    destruct (h !! r) as [[?|?]|]; try done.
    destruct (read_rows h rs); done.
  - destruct (board_init_spec h b r0 v Hv) as (c & ext & -> & _ & _).
    eexists _, _. split; [done|]. by simpl.
Qed.

(** The theorem at the ragged grid above. *)
Lemma board_construction_reads_first_row_only_witness :
  let v := [["a"; "b"]; ["c"]]%string in
  let '(b, h) := new_grid [] v in
  exists B h',
    _Board.__init__ h b = Return (B, h') /\
    _Board.board B = b /\
    _Board.x B = 1 /\
    _Board.y B = 1.
Proof.
  apply (board_construction_reads_first_row_only _ _ [["a"; "b"]; ["c"]]%string).
  reflexivity.
Defined.

(** ** Movement *)

(** Against claim C4 as worded: for a key held by the up and the left
    key-set the player moves left, [pos[0]] going from 2 to 1, and not
    up. *)
Lemma key_of_up_and_left_moves_left :
  let p := _Player.__init__ "@" (2, 2) (KeySet ["w"]) (KeySet ["w"; "a"])
             (KeySet ["s"]) (KeySet ["d"]) false None in
  contains (_Player.up p) "w" = true /\
  contains (_Player.left p) "w" = true /\
  _Player.pos (snd (_Player.change_position p "w")) = (1, 2) /\
  _Player.pos (snd (_Player.change_position p "w")) <>
    _Player.pos (_Player._change_position p 0 (-1)).
Proof. repeat split; try reflexivity. simpl. discriminate. Qed.

(** Claim C4, as the code has it. The key-sets are checked in the order
    left, right, up, down, and the first one that holds the key decides: its
    delta (left
    [(-1, 0)], right [(1, 0)], up [(0, -1)], down [(0, 1)]) is added to the
    position and 0 is returned; with no match the player is left as it is
    and -1 is returned. *)
Theorem change_position_first_match_left_right_up_down
    (p : _Player.t) (key : string) :
  _Player.change_position p key =
    match first_match [(_Player.left p, (-1, 0)); (_Player.right p, (1, 0));
                       (_Player.up p, (0, -1)); (_Player.down p, (0, 1))] key with
    | Some (dx, dy) => (0, _Player._change_position p dx dy)
    | None => (-1, p)
    end.
Proof.
  unfold _Player.change_position. simpl.
  destruct (contains (_Player.left p) key); [done|].
  destruct (contains (_Player.right p) key); [done|].
  destruct (contains (_Player.up p) key); [done|].
  destruct (contains (_Player.down p) key); done.
Qed.

Lemma change_position_no_match (p : _Player.t) (key : string) :
  contains (_Player.left p) key = false ->
  contains (_Player.right p) key = false ->
  contains (_Player.up p) key = false ->
  contains (_Player.down p) key = false ->
  _Player.change_position p key = (-1, p).
Proof. unfold _Player.change_position. by intros -> -> -> ->. Qed.

(** Claim C5. For a player of the game and a key that none of its
    four key-sets holds, [change_player_position] returns -1 (the ignored
    result) and leaves the player, and so its position, and the list of
    players as they were, and the pending-update flag is set afterwards;
    the flag is set after the call for any key at all, whatever the
    result. *)
Theorem change_player_position_ignored_still_marks_dirty
    (g : ConsoleGame.t) (player : nat) (p : _Player.t) (key : string) :
  ConsoleGame.Players g !! player = Some p ->
  contains (_Player.left p) key = false ->
  contains (_Player.right p) key = false ->
  contains (_Player.up p) key = false ->
  contains (_Player.down p) key = false ->
  (exists g',
     ConsoleGame.change_player_position player key g = (Return (-1), g') /\
     ConsoleGame.Players g' = ConsoleGame.Players g /\
     ConsoleGame.Players g' !! player = Some p /\
     ConsoleGame._pending_update g' = true) /\
  forall key',
    ConsoleGame._pending_update
      (snd (ConsoleGame.change_player_position player key' g)) = true.
Proof.
  intros Hp Hl Hr Hu Hd. split.
  - unfold ConsoleGame.change_player_position. rewrite Hp.
    rewrite (change_position_no_match p key Hl Hr Hu Hd).
    eexists. split; [done|]. simpl.
    rewrite (list_insert_id _ _ _ Hp). done.
  - intros key'. unfold ConsoleGame.change_player_position. rewrite Hp.
    by destruct (_Player.change_position p key').
Qed.

(** The theorem on a five by five board, for a player with the default
    key-sets and the key [x]. *)
Lemma change_player_position_ignored_still_marks_dirty_witness :
  exists g0 g1 p,
    new_game (blank 5 5) = Return g0 /\
    ConsoleGame.add_player "@" (2, 2) (KeyStr "up") (KeyStr "left")
      (KeyStr "down") (KeyStr "right") false None g0 = (Return 0%nat, g1) /\
    ConsoleGame.Players g1 !! 0%nat = Some p /\
    (exists g',
       ConsoleGame.change_player_position 0 "x" g1 = (Return (-1), g') /\
       ConsoleGame.Players g' = ConsoleGame.Players g1 /\
       ConsoleGame.Players g' !! 0%nat = Some p /\
       ConsoleGame._pending_update g' = true) /\
    forall key',
      ConsoleGame._pending_update
        (snd (ConsoleGame.change_player_position 0 key' g1)) = true.
Proof.
  eexists _, _, _.
  split; [vm_compute; reflexivity|].
  split; [vm_compute; reflexivity|].
  split; [reflexivity|].
  apply (change_player_position_ignored_still_marks_dirty _ 0%nat _ "x");
    reflexivity.
Defined.

(** ** The redraw *)

Lemma py_index_in_range (len : nat) (i : Z) :
  0 <= i < Z.of_nat len ->
  py_index len i = Some (Z.to_nat i) /\ (Z.to_nat i < len)%nat.
Proof.
  intros Hi. unfold py_index.
  assert ((0 <=? i) && (i <? Z.of_nat len) = true) as ->.
  { apply andb_true_iff. split; [apply Z.leb_le | apply Z.ltb_lt]; lia. }
  split; [done | lia].
Qed.

Lemma py_index_above (len : nat) (i : Z) :
  Z.of_nat len <= i -> py_index len i = None.
Proof.
  intros Hi. unfold py_index.
  assert ((i <? Z.of_nat len) = false) as -> by (apply Z.ltb_ge; lia).
  assert ((i <? 0) = false) as -> by (apply Z.ltb_ge; lia).
  by rewrite !andb_false_r.
Qed.

Lemma read_rows_length (h : heap) (rs : list loc) (v : list (list string)) :
  read_rows h rs = Some v -> length v = length rs.
Proof.
  revert v. induction rs as [|r rs IH]; intros v; simpl.
  - by intros [= <-].
  - destruct (h !! r) as [[?|?]|]; try done.
    destruct (read_rows h rs) as [w|]; try done.
    intros [= <-]. simpl. f_equal. by apply IH.
Qed.

Lemma read_rows_lookup (h : heap) (rs : list loc) (v : list (list string))
    (i : nat) (r : loc) :
  read_rows h rs = Some v -> rs !! i = Some r ->
  exists cells, h !! r = Some (Row cells) /\ v !! i = Some cells.
Proof.
  revert v i. induction rs as [|r0 rs IH]; intros v i; simpl; [done|].
  destruct (h !! r0) as [[cells0|?]|] eqn:Hr0; try done.
  destruct (read_rows h rs) as [w|] eqn:Hw; try done.
  intros [= <-]. destruct i as [|i]; simpl.
  - intros [= <-]. by exists cells0.
  - intros Hi. by apply IH.
Qed.

(** Assigning a cell of one row object keeps every row of a grid readable
    and of the same length, also the rows that are that same object. *)
Lemma read_rows_assign (h : heap) (rs : list loc) (v : list (list string))
    (r : loc) (cells : list string) (j : nat) (c : string) (W : nat) :
  read_rows h rs = Some v -> h !! r = Some (Row cells) ->
  Forall (fun row => length row = W) v ->
  exists v', read_rows (<[r := Row (<[j := c]> cells)]> h) rs = Some v' /\
    length v' = length v /\ Forall (fun row => length row = W) v'.
Proof.
  intros Hv Hr. revert v Hv. induction rs as [|r0 rs IH]; intros v; simpl.
  - intros [= <-] _. by exists [].
  - destruct (h !! r0) as [[cells0|?]|] eqn:Hr0; try done.
    destruct (read_rows h rs) as [w|] eqn:Hw; try done.
    intros [= <-] HW. apply Forall_cons in HW as [HW0 HW].
    destruct (IH w eq_refl HW) as (w' & -> & Hlen & HW').
    destruct (decide (r = r0)) as [->|Hne].
    + rewrite list_lookup_insert_eq by (by eapply lookup_lt_Some).
      eexists. split; [done|]. split; [by simpl; rewrite Hlen|].
      constructor; [|done]. rewrite length_insert. congruence.
    + rewrite list_lookup_insert_ne by done. rewrite Hr0.
      eexists. split; [done|]. split; [by simpl; rewrite Hlen|].
      by constructor.
Qed.

(** On a grid of [H] by [W] cells the placement at indices within
    [0, H) and [0, W) returns and keeps the grid's shape. *)
Lemma place_in_range (h : heap) (g : loc) (H W : nat) (px py : Z) (c : string) :
  shape h g H W -> 0 <= px < Z.of_nat H -> 0 <= py < Z.of_nat W ->
  exists h', ConsoleGame.place h g px py c = Return h' /\ shape h' g H W.
Proof.
  intros (v & Hv & HH & HW) Hpx Hpy. unfold ConsoleGame.place.
  unfold read_grid in Hv. destruct (h !! g) as [[?|rs]|] eqn:Hg; try done.
  pose proof (read_rows_length h rs v Hv) as Hlen.
  destruct (py_index_in_range (length rs) px) as [-> Hi]; [lia|].
  destruct (lookup_lt_is_Some_2 rs _ Hi) as [r Hr]. rewrite Hr.
  destruct (read_rows_lookup h rs v _ r Hv Hr) as (cells & Hcells & Hvi).
  rewrite Hcells.
  assert (Hw : length cells = W).
  { rewrite Forall_forall in HW. apply HW. by eapply list_elem_of_lookup_2. }
  destruct (py_index_in_range (length cells) py) as [-> Hj]; [lia|].
  eexists. split; [done|].
  destruct (read_rows_assign h rs v r cells (Z.to_nat py) c W Hv Hcells HW)
    as (v' & Hv' & Hlen' & HW').
  exists v'. split; [|split; [congruence | done]].
  unfold read_grid. rewrite list_lookup_insert_ne by congruence.
  by rewrite Hg.
Qed.

(** What the clamp chain does to a player out of bounds on one axis at
    most: both indices end within the grid, and they are the position
    written back. *)
Lemma index_error_protection_one_axis (bd : _Board.t) (p : _Player.t) :
  0 <= _Board.x bd -> 0 <= _Board.y bd -> one_axis_at_most bd p ->
  exists px py,
    ConsoleGame.index_error_protection bd p = (clamped bd p, px, py) /\
    _Player.pos (clamped bd p) = (py, px) /\
    0 <= px <= _Board.x bd /\ 0 <= py <= _Board.y bd.
Proof.
  intros Hx Hy Hone. unfold clamped, ConsoleGame.index_error_protection.
  unfold one_axis_at_most, col_in_bounds, row_in_bounds, col, row, maxCol, maxRow in Hone.
  destruct (_Player.pos p) as [c r] eqn:Hpos. simpl in *.
  destruct (Z.gtb_spec r (_Board.x bd)); simpl.
  { eexists _, _. split; [done|]. split; [done|]. lia. }
  destruct (Z.gtb_spec c (_Board.y bd)); simpl.
  { eexists _, _. split; [done|]. split; [done|]. lia. }
  destruct (Z.ltb_spec r 0); simpl.
  { eexists _, _. split; [done|]. split; [done|]. lia. }
  destruct (Z.ltb_spec c 0); simpl.
  { eexists _, _. split; [done|]. split; [done|]. lia. }
  eexists _, _. split; [done|]. split; [done|]. lia.
Qed.

Lemma display_players_length (bd : _Board.t) (ps : list _Player.t) :
  forall h, length (snd (ConsoleGame.display_players bd h ps)) = length ps.
Proof.
  induction ps as [|p ps IH]; intros h; simpl; [done|].
  destruct (ConsoleGame.index_error_protection bd p) as [[p' px] py].
  destruct (ConsoleGame.place h (_Board.board bd) px py (_Player.char p')) as [h'|e];
    [|done].
  specialize (IH h').
  destruct (ConsoleGame.display_players bd h' ps) as [[r h''] ps''].
  simpl in *. by rewrite IH.
Qed.

Section Display.

Variable bd : _Board.t.
Variables H W : nat.
Hypothesis Hx : _Board.x bd = Z.of_nat H - 1.
Hypothesis Hy : _Board.y bd = Z.of_nat W - 1.
Hypothesis HH : (1 <= H)%nat.
Hypothesis HW : (1 <= W)%nat.

(** One turn of the loop over the players, for a player out of bounds on
    one axis at most: the placement returns and the loop goes on. *)
Lemma display_players_step (h : heap) (p : _Player.t) :
  shape h (_Board.board bd) H W -> one_axis_at_most bd p ->
  exists h1,
    shape h1 (_Board.board bd) H W /\
    forall ps,
      ConsoleGame.display_players bd h (p :: ps) =
        let '(r, h2, ps') := ConsoleGame.display_players bd h1 ps in
        (r, h2, clamped bd p :: ps').
Proof.
  intros Hs Hone.
  destruct (index_error_protection_one_axis bd p) as (px & py & Hiep & _ & Hpx & Hpy);
    [lia | lia | done |].
  destruct (place_in_range h (_Board.board bd) H W px py
              (_Player.char (clamped bd p)) Hs) as (h1 & Hplace & Hs1); [lia | lia |].
  exists h1. split; [done|]. intros ps. simpl. by rewrite Hiep, Hplace.
Qed.

Lemma display_players_all (ps : list _Player.t) :
  forall h,
    shape h (_Board.board bd) H W -> Forall (one_axis_at_most bd) ps ->
    exists h',
      ConsoleGame.display_players bd h ps = (Return tt, h', map (clamped bd) ps) /\
      shape h' (_Board.board bd) H W.
Proof.
  induction ps as [|p ps IH]; intros h Hs Hall.
  - by exists h.
  - apply Forall_cons in Hall as [Hp Hall].
    destruct (display_players_step h p Hs Hp) as (h1 & Hs1 & ->).
    destruct (IH h1 Hs1 Hall) as (h' & -> & Hs').
    by exists h'.
Qed.

(** The players up to the first one out of bounds on both axes are
    written back clamped whatever happens after them. *)
Lemma display_players_prefix (ps1 : list _Player.t) :
  forall h p ps2,
    shape h (_Board.board bd) H W ->
    Forall (one_axis_at_most bd) ps1 -> one_axis_at_most bd p ->
    exists r h' ps2',
      ConsoleGame.display_players bd h (ps1 ++ p :: ps2) =
        (r, h', map (clamped bd) ps1 ++ clamped bd p :: ps2') /\
      length ps2' = length ps2.
Proof.
  induction ps1 as [|q ps1 IH]; intros h p ps2 Hs Hall Hp.
  - destruct (display_players_step h p Hs Hp) as (h1 & Hs1 & Hstep).
    pose proof (display_players_length bd ps2 h1) as Hlen.
    simpl app. rewrite Hstep.
    destruct (ConsoleGame.display_players bd h1 ps2) as [[r h2] ps2'].
    by exists r, h2, ps2'.
  - apply Forall_cons in Hall as [Hq Hall].
    destruct (display_players_step h q Hs Hq) as (h1 & Hs1 & Hstep).
    destruct (IH h1 p ps2 Hs1 Hall Hp) as (r & h' & ps2' & Heq & Hlen).
    simpl app. rewrite Hstep, Heq. by exists r, h', ps2'.
Qed.

End Display.

(** The redraw up to the loop over the players: the terminal is cleared and
    the working grid is a new copy of the baseline, of its shape. *)
Lemma redraw_unfold (g : ConsoleGame.t) (H W : nat) :
  shape (ConsoleGame.store g) (_Board._copy (ConsoleGame.board g)) H W ->
  exists w h1,
    shape h1 w H W /\
    ConsoleGame._update_and_display_board g =
      let g1 := ConsoleGame.set_console (ConsoleGame.console g ++ [Clear]) g in
      let bd := _Board.set_board w (ConsoleGame.board g) in
      let '(r, h2, ps) := ConsoleGame.display_players bd h1 (ConsoleGame.Players g) in
      let g2 := ConsoleGame.set_Players ps
                  (ConsoleGame.set_store h2 (ConsoleGame.set_board bd g1)) in
      match r with
      | Raise e => (Raise e, g2)
      | Return _ =>
          match _Board.__str__ h2 bd with
          | Return s =>
              (Return tt,
               ConsoleGame.set_console (ConsoleGame.console g2 ++ [Writeline s]) g2)
          | Raise e => (Raise e, g2)
          end
      end.
Proof.
  intros (v & Hv & Hlen & Hall).
  destruct (deepcopy_spec _ _ v Hv) as (w & ext & Hcopy & Hw & _).
  exists w, (ConsoleGame.store g ++ ext). split; [by exists v|].
  unfold ConsoleGame._update_and_display_board, _Board._original. simpl.
  by rewrite Hcopy.
Qed.

(** Against claim C1 as worded: on a five by five board a player with
    column -1 and row 7 is out of bounds; the redraw returns and leaves it
    with column -1, the row alone having been corrected. *)
Lemma redraw_leaves_second_axis_out_of_bounds :
  exists g0 g1 g2 p,
    new_game (blank 5 5) = Return g0 /\
    ConsoleGame.add_player "@" (-1, 7) (KeyStr "up") (KeyStr "left")
      (KeyStr "down") (KeyStr "right") false None g0 = (Return 0%nat, g1) /\
    ConsoleGame._update_and_display_board g1 = (Return tt, g2) /\
    ConsoleGame.Players g2 = [p] /\
    _Player.pos p = (-1, 4) /\
    ~ in_bounds (ConsoleGame.board g2) p.
Proof.
  eexists _, _, _, _.
  split; [vm_compute; reflexivity|].
  split; [vm_compute; reflexivity|].
  split; [vm_compute; reflexivity|].
  split; [reflexivity|]. split; [reflexivity|].
  unfold in_bounds, col_in_bounds, col. simpl. lia.
Qed.

(** Claim C1, as the code has it. On a board of [H] by [W] cells, for a
    player out of bounds on one axis at most, every player before it in the
    list being so too, the position stored after one redraw satisfies
    [0 <= col <= maxCol] and [0 <= row <= maxRow]; and when every player is
    out of bounds on one axis at most the redraw returns. *)
Theorem redraw_corrects_overflow_on_one_axis
    (g : ConsoleGame.t) (H W : nat) (i : nat) (p : _Player.t) :
  board_ready g H W ->
  ConsoleGame.Players g !! i = Some p ->
  (forall j q, (j <= i)%nat -> ConsoleGame.Players g !! j = Some q ->
               one_axis_at_most (ConsoleGame.board g) q) ->
  let g' := snd (ConsoleGame._update_and_display_board g) in
  (exists p', ConsoleGame.Players g' !! i = Some p' /\
              in_bounds (ConsoleGame.board g') p' /\
              p' = clamped (ConsoleGame.board g) p) /\
  (Forall (one_axis_at_most (ConsoleGame.board g)) (ConsoleGame.Players g) ->
   fst (ConsoleGame._update_and_display_board g) = Return tt).
Proof.
  intros (Hshape & HH & HW & Hx & Hy) Hi Hbefore.
  destruct (redraw_unfold g H W Hshape) as (w & h1 & Hs1 & Hredraw).
  set (bd := _Board.set_board w (ConsoleGame.board g)) in *.
  assert (Hone : forall q, one_axis_at_most (ConsoleGame.board g) q <->
                           one_axis_at_most bd q) by done.
  assert (Hcl : forall q, clamped bd q = clamped (ConsoleGame.board g) q) by done.
  intros g'. split.
  - pose proof (take_drop_middle _ _ _ Hi) as Hsplit.
    destruct (display_players_prefix bd H W Hx Hy HH HW
                (take i (ConsoleGame.Players g)) h1 p
                (drop (S i) (ConsoleGame.Players g)) Hs1) as (r & h' & ps2' & Heq & _).
    { apply Forall_forall. intros q Hq.
      apply list_elem_of_lookup in Hq as [j Hj].
      pose proof (lookup_lt_Some _ _ _ Hj) as Hlt. rewrite length_take in Hlt.
      rewrite lookup_take_lt in Hj by lia.
      apply Hone, (Hbefore j); [lia | done]. }
    { apply Hone, (Hbefore i); [lia | done]. }
    rewrite Hsplit in Heq.
    exists (clamped bd p).
    assert (Hin : in_bounds bd (clamped bd p)).
    { destruct (index_error_protection_one_axis bd p) as (px & py & _ & Hpos & Hpx & Hpy);
        [simpl; lia | simpl; lia | by apply Hone, (Hbefore i) |].
      unfold in_bounds, col_in_bounds, row_in_bounds, col, row, maxCol, maxRow.
      rewrite Hpos. simpl in *. lia. }
    assert (Hlook : (map (clamped bd) (take i (ConsoleGame.Players g)) ++
                       clamped bd p :: ps2') !! i = Some (clamped bd p)).
    { apply list_lookup_middle. rewrite length_map, length_take.
      apply lookup_lt_Some in Hi. lia. }
    subst g'. rewrite Hredraw. cbv zeta. rewrite Heq.
    destruct r as [[]|e]; [destruct (_Board.__str__ h' bd)|]; simpl; by rewrite Hcl.
  - intros Hall.
    destruct (display_players_all bd H W Hx Hy HH HW (ConsoleGame.Players g) h1 Hs1)
      as (h' & Heq & (v' & Hv' & _)).
    { eapply Forall_impl; [exact Hall|]. intros q. apply Hone. }
    rewrite Hredraw. cbv zeta. rewrite Heq.
    unfold _Board.__str__. by rewrite Hv'.
Qed.

(** The theorem on a five by five board with one player at column 0 and
    row 7. *)
Lemma redraw_corrects_overflow_on_one_axis_witness :
  exists g0 g1,
    new_game (blank 5 5) = Return g0 /\
    ConsoleGame.add_player "@" (0, 7) (KeyStr "up") (KeyStr "left")
      (KeyStr "down") (KeyStr "right") false None g0 = (Return 0%nat, g1) /\
    let g' := snd (ConsoleGame._update_and_display_board g1) in
    (exists p', ConsoleGame.Players g' !! 0%nat = Some p' /\
                in_bounds (ConsoleGame.board g') p' /\
                _Player.pos p' = (0, 4)) /\
    fst (ConsoleGame._update_and_display_board g1) = Return tt.
Proof.
  eexists _, _.
  split; [vm_compute; reflexivity|].
  split; [vm_compute; reflexivity|].
  match goal with
  | |- context [ConsoleGame._update_and_display_board ?g] =>
      destruct (redraw_corrects_overflow_on_one_axis g 5 5 0
                  (_Player.__init__ "@" (0, 7) (KeyStr "up") (KeyStr "left")
                     (KeyStr "down") (KeyStr "right") false None))
        as [(p' & Hp' & Hin & Heq) Hret]
  end.
  - split.
    + exists (blank 5 5). split; [reflexivity|]. split; [reflexivity|].
      repeat constructor.
    + repeat split; simpl; lia.
  - reflexivity.
  - intros j q Hj. assert (j = 0%nat) as -> by lia. intros [= <-].
    left. unfold col_in_bounds, col, maxCol. simpl. lia.
  - intros g'. split.
    + exists p'. split; [done|]. split; [done|]. by rewrite Heq.
    + apply Hret. constructor; [|constructor].
      left. unfold col_in_bounds, col, maxCol. simpl. lia.
Defined.

(** Past both maxima the chain corrects the row and the placement raises
    on the column. *)
Lemma redraw_raises_past_both_maxima
    (g : ConsoleGame.t) (H W : nat) (p : _Player.t) (ps : list _Player.t) :
  board_ready g H W ->
  ConsoleGame.Players g = p :: ps ->
  maxRow (ConsoleGame.board g) < row p ->
  maxCol (ConsoleGame.board g) < col p ->
  exists g',
    ConsoleGame._update_and_display_board g = (Raise IndexError, g') /\
    ConsoleGame.Players g' = clamped (ConsoleGame.board g) p :: ps /\
    row (clamped (ConsoleGame.board g) p) = maxRow (ConsoleGame.board g) /\
    col (clamped (ConsoleGame.board g) p) = col p.
Proof.
  intros (Hshape & HH & HW & Hx & Hy) Hps Hrow Hcol.
  destruct (redraw_unfold g H W Hshape) as (w & h1 & (v & Hv & Hlen & Hall) & ->).
  cbv zeta. rewrite Hps. unfold maxRow, maxCol, row, col in *.
  assert (Hiep : ConsoleGame.index_error_protection
                   (_Board.set_board w (ConsoleGame.board g)) p =
                 (clamped (ConsoleGame.board g) p, _Board.x (ConsoleGame.board g),
                  fst (_Player.pos p))).
  { unfold clamped, ConsoleGame.index_error_protection. simpl.
    destruct (Z.gtb_spec (snd (_Player.pos p)) (_Board.x (ConsoleGame.board g)));
      [|lia].
    simpl. do 2 f_equal. lia. }
  assert (Hplace : ConsoleGame.place h1 w (_Board.x (ConsoleGame.board g))
                     (fst (_Player.pos p))
                     (_Player.char (clamped (ConsoleGame.board g) p)) =
                   Raise IndexError).
  { unfold ConsoleGame.place. unfold read_grid in Hv.
    destruct (h1 !! w) as [[?|rs]|]; try done.
    pose proof (read_rows_length h1 rs v Hv) as Hrs.
    destruct (py_index_in_range (length rs) (_Board.x (ConsoleGame.board g)))
      as [-> Hi]; [lia|].
    destruct (lookup_lt_is_Some_2 rs _ Hi) as [r Hr]. rewrite Hr.
    destruct (read_rows_lookup h1 rs v _ r Hv Hr) as (cells & -> & Hvi).
    rewrite Forall_forall in Hall.
    rewrite py_index_above; [done|].
    rewrite (Hall cells) by (by eapply list_elem_of_lookup_2). lia. }
  simpl ConsoleGame.display_players. rewrite Hiep. simpl _Board.board.
  rewrite Hplace. eexists. split; [done|]. split; [done|].
  unfold clamped, ConsoleGame.index_error_protection.
  destruct (Z.gtb_spec (snd (_Player.pos p)) (_Board.x (ConsoleGame.board g)));
    [|lia].
  simpl. split; [lia | done].
Qed.

(** Claim C2, where the code departs from it. A player added at column 10
    and row 10 of a five by five board: the redraw corrects the row to 4,
    leaves the column at 10 and raises IndexError on the placement, after
    the terminal has been cleared and before anything is written. *)
Theorem redraw_raises_when_out_of_bounds_on_both_axes :
  exists g0 g1 g2,
    new_game (blank 5 5) = Return g0 /\
    ConsoleGame.add_player "@" (10, 10) (KeyStr "up") (KeyStr "left")
      (KeyStr "down") (KeyStr "right") false None g0 = (Return 0%nat, g1) /\
    ConsoleGame._update_and_display_board g1 = (Raise IndexError, g2) /\
    map _Player.pos (ConsoleGame.Players g2) = [(10, 4)] /\
    ConsoleGame.console g2 = [Clear].
Proof.
  eexists _, _, _.
  split; [vm_compute; reflexivity|].
  split; [vm_compute; reflexivity|].
  split; [vm_compute; reflexivity|].
  split; reflexivity.
Qed.

Lemma display_players_returned (bd : _Board.t) (ps : list _Player.t) :
  forall h h' ps',
    ConsoleGame.display_players bd h ps = (Return tt, h', ps') ->
    ps' = map (clamped bd) ps.
Proof.
  induction ps as [|p ps IH]; intros h h' ps'; simpl.
  - by intros [= _ <-].
  - unfold clamped.
    destruct (ConsoleGame.index_error_protection bd p) as [[p' px] py].
    destruct (ConsoleGame.place h (_Board.board bd) px py (_Player.char p')) as [h1|e];
      [|done].
    specialize (IH h1).
    destruct (ConsoleGame.display_players bd h1 ps) as [[r h2] ps2].
    intros [= -> <- <-]. simpl. f_equal. by eapply IH.
Qed.

(** A redraw that returns has written the clamped position back onto every
    player. *)
Lemma redraw_returned_players (g g' : ConsoleGame.t) :
  ConsoleGame._update_and_display_board g = (Return tt, g') ->
  ConsoleGame.Players g' =
    map (clamped (ConsoleGame.board g)) (ConsoleGame.Players g).
Proof.
  unfold ConsoleGame._update_and_display_board.
  destruct (_Board._original _ _) as [[w h1]|e]; [|done].
  destruct (ConsoleGame.display_players _ h1 _) as [[r h2] ps] eqn:Hd.
  destruct r as [[]|e]; [|done].
  destruct (_Board.__str__ h2 _) as [s|e]; [|done].
  intros [= <-]. simpl. by apply display_players_returned in Hd.
Qed.

(** Against claim C3 as worded: the check made first is on [pos[1]], the
    row. With column and row both at -1 on a five by five board the redraw
    pins the row to 0 and leaves the column at -1, so the column-low check
    does not come before the row-low check; and on a board of two rows of
    five cells a player with [pos[1]] at 3 lands on 1, the last row, not on
    4, the last column. *)
Lemma redraw_pins_row_before_column :
  (exists g0 g1 g2 p,
     new_game (blank 5 5) = Return g0 /\
     ConsoleGame.add_player "@" (-1, -1) (KeyStr "up") (KeyStr "left")
       (KeyStr "down") (KeyStr "right") false None g0 = (Return 0%nat, g1) /\
     ConsoleGame._update_and_display_board g1 = (Return tt, g2) /\
     ConsoleGame.Players g2 = [p] /\
     _Player.pos p = (-1, 0) /\
     row p = 0 /\ col p = -1 /\ col p <> 0) /\
  (exists g0 g1 g2 p,
     new_game (blank 2 5) = Return g0 /\
     ConsoleGame.add_player "@" (0, 3) (KeyStr "up") (KeyStr "left")
       (KeyStr "down") (KeyStr "right") false None g0 = (Return 0%nat, g1) /\
     ConsoleGame._update_and_display_board g1 = (Return tt, g2) /\
     ConsoleGame.Players g2 = [p] /\
     _Player.pos p = (0, 1) /\
     maxRow (ConsoleGame.board g2) = 1 /\
     maxCol (ConsoleGame.board g2) = 4).
Proof.
  split; eexists _, _, _, _;
    (split; [vm_compute; reflexivity|]);
    (split; [vm_compute; reflexivity|]);
    (split; [vm_compute; reflexivity|]);
    (split; [reflexivity|]); by repeat split.
Qed.

(** Claim C3, as the code has it. The chain is one of mutually exclusive
    branches taken in the order row-high, column-high, row-low, column-low:
    a row above
    [maxRow] lands on [maxRow]; failing that, a column above [maxCol] lands
    on [maxCol]; failing both, a negative row is pinned to 0; failing that,
    a negative column is pinned to 0; a player in bounds is untouched. At
    most one coordinate changes. The indices used for the placement are the
    coordinates written back, and after a redraw that returns every stored
    player is the clamped one. *)
Theorem clamp_order_row_high_column_high_row_low_column_low
    (bd : _Board.t) (p : _Player.t) :
  let p' := clamped bd p in
  (maxRow bd < row p -> row p' = maxRow bd /\ col p' = col p) /\
  (row p <= maxRow bd -> maxCol bd < col p ->
   col p' = maxCol bd /\ row p' = row p) /\
  (row p <= maxRow bd -> col p <= maxCol bd -> row p < 0 ->
   row p' = 0 /\ col p' = col p) /\
  (0 <= row p <= maxRow bd -> col p <= maxCol bd -> col p < 0 ->
   col p' = 0 /\ row p' = row p) /\
  (in_bounds bd p -> p' = p) /\
  (row p' = row p \/ col p' = col p) /\
  ConsoleGame.index_error_protection bd p = (p', row p', col p') /\
  forall g g',
    ConsoleGame.board g = bd ->
    ConsoleGame._update_and_display_board g = (Return tt, g') ->
    ConsoleGame.Players g' = map (clamped bd) (ConsoleGame.Players g).
Proof.
  intros p'. subst p'.
  assert (Hlast : forall g g', ConsoleGame.board g = bd ->
            ConsoleGame._update_and_display_board g = (Return tt, g') ->
            ConsoleGame.Players g' = map (clamped bd) (ConsoleGame.Players g)).
  { intros g g' <-. apply redraw_returned_players. }
  unfold clamped, ConsoleGame.index_error_protection, in_bounds, col_in_bounds,
    row_in_bounds, row, col, maxRow, maxCol.
  destruct p as [ch [c r] kl kr ku kd co ac]. simpl.
  destruct (Z.gtb_spec r (_Board.x bd));
    [|destruct (Z.gtb_spec c (_Board.y bd));
      [|destruct (Z.ltb_spec r 0); [|destruct (Z.ltb_spec c 0)]]];
    simpl; repeat split; try lia; try done;
    try (first [by left | by right]);
    unfold _Player.set_pos; simpl; repeat f_equal; lia.
Qed.

(** The theorem on a board of five by five cells: a player at column 9 and
    row 7 ends at row 4 with its column still 9. *)
Lemma clamp_order_row_high_column_high_row_low_column_low_witness :
  let bd := {| _Board.board := 0%nat; _Board.x := 4; _Board.y := 4;
               _Board._copy := 1%nat |} in
  let p := _Player.__init__ "@" (9, 7) (KeyStr "up") (KeyStr "left")
             (KeyStr "down") (KeyStr "right") false None in
  maxRow bd < row p /\ row (clamped bd p) = maxRow bd /\ col (clamped bd p) = 9.
Proof.
  intros bd p.
  assert (Hhigh : maxRow bd < row p) by (unfold maxRow, row; simpl; lia).
  split; [exact Hhigh|].
  exact (proj1 (clamp_order_row_high_column_high_row_low_column_low bd p) Hhigh).
Defined.

(** ** The loop *)

Lemma preserves_bind {A B : Type} (P : ConsoleGame.t -> Prop)
    (m : ConsoleGame.M A) (k : A -> ConsoleGame.M B) :
  preserves P m -> (forall a, preserves P (k a)) ->
  preserves P (ConsoleGame.bind m k).
Proof.
  intros Hm Hk g HP. unfold ConsoleGame.bind.
  specialize (Hm g HP). destruct (m g) as [[a|e] g1]; simpl in *; [|done].
  by apply Hk.
Qed.

Lemma preserves_get (P : ConsoleGame.t -> Prop) : preserves P ConsoleGame.get.
Proof. by intros g HP. Qed.

Section Calls.

(** [Q] picks the calls a hook may make, [P] is a property of the game each
    of them keeps. *)
Variable Q : ConsoleGame.call -> Prop.
Variable P : ConsoleGame.t -> Prop.
Hypothesis call_keeps : forall c, Q c -> preserves P (ConsoleGame.run_call c).

Lemma run_calls_preserves (cs : list ConsoleGame.call) :
  Forall Q cs -> preserves P (ConsoleGame.run_calls cs).
Proof.
  induction 1 as [|c cs Hc _ IH]; simpl.
  - by intros g HP.
  - apply preserves_bind; [by apply call_keeps | by intros _].
Qed.

Variable env : ConsoleGame.hooks.
Hypothesis env_calls : forall f a g, Forall Q (env f a g).

Lemma invoke_preserves (f : option nat) (a : option string) :
  preserves P (ConsoleGame.invoke env f a).
Proof.
  intros g HP. unfold ConsoleGame.invoke. destruct f as [f|]; [|done].
  by apply run_calls_preserves.
Qed.

(** The keyboard is no part of [P]. *)
Hypothesis keyboard_free :
  forall k g, P g -> P (ConsoleGame.set_keyboard k g).

Lemma getch_preserves : preserves P ConsoleGame.getch.
Proof.
  intros g HP. unfold ConsoleGame.getch.
  destruct (ConsoleGame.keyboard g); simpl; [done|]. by apply keyboard_free.
Qed.

Lemma _get_input_preserves : preserves P ConsoleGame._get_input.
Proof.
  unfold ConsoleGame._get_input.
  apply preserves_bind; [apply getch_preserves|]. intros first.
  destruct (first =? 224).
  - apply preserves_bind; [apply getch_preserves|]. by intros second g HP.
  - destruct (first <? 128); by intros g HP.
Qed.

Lemma poll_key_preserves : preserves P (ConsoleGame.poll_key env).
Proof.
  unfold ConsoleGame.poll_key.
  apply preserves_bind; [apply preserves_get|]. intros g1.
  destruct (ConsoleGame.kbhit g1); [|by intros g HP].
  apply preserves_bind; [apply _get_input_preserves|]. intros key.
  apply preserves_bind; [apply preserves_get|]. intros g2.
  apply invoke_preserves.
Qed.

Lemma before_update_preserves : preserves P (ConsoleGame.before_update env).
Proof.
  unfold ConsoleGame.before_update.
  apply preserves_bind; [apply preserves_get|]. intros g0.
  apply preserves_bind; [apply invoke_preserves|]. intros _.
  apply poll_key_preserves.
Qed.

Lemma after_update_preserves : preserves P (ConsoleGame.after_update env).
Proof.
  unfold ConsoleGame.after_update.
  apply preserves_bind; [apply preserves_get|]. intros g3.
  apply preserves_bind; [apply invoke_preserves|]. intros _.
  apply preserves_bind; [apply preserves_get|]. intros g4.
  unfold ConsoleGame.sleep. destruct (Qle_bool 0 (ConsoleGame.delay g4));
    by intros g HP.
Qed.

End Calls.

(** No call of the public interface touches the terminal. *)
Lemma run_call_console (c0 : list console_event) (c : ConsoleGame.call) :
  preserves (fun g => ConsoleGame.console g = c0) (ConsoleGame.run_call c).
Proof. intros g HP. destruct c; open_call; done. Qed.

(** No call of the public interface sets [interval] to anything but 1. *)
Lemma run_call_interval (c : ConsoleGame.call) :
  preserves (fun g => ConsoleGame.interval g = 1) (ConsoleGame.run_call c).
Proof. intros g HP. destruct c; open_call; done. Qed.

(** The calls of the public interface keep a smart game dirty until it is
    redrawn: [initialize] and [change_player_position] set the flag, [quit]
    leaves smart updating. *)
Lemma run_call_smart_pending (c : ConsoleGame.call) :
  preserves (fun g => ConsoleGame.smart_updating g = true ->
                      ConsoleGame._pending_update g = true)
    (ConsoleGame.run_call c).
Proof. intros g HP. destruct c; open_call; done. Qed.

(** A quiet call keeps the update mode, the flag and the terminal. *)
Lemma run_call_quiet (s d : bool) (c0 : list console_event)
    (c : ConsoleGame.call) :
  quiet c ->
  preserves (fun g => ConsoleGame.smart_updating g = s /\
                      ConsoleGame._pending_update g = d /\
                      ConsoleGame.console g = c0)
    (ConsoleGame.run_call c).
Proof. intros Hq g HP. destruct c; try done; open_call; done. Qed.

(** A redraw clears the terminal once, and touches neither the update mode
    nor the flag nor the interval. *)
Lemma redraw_frame (g : ConsoleGame.t) :
  let g' := snd (ConsoleGame._update_and_display_board g) in
  ConsoleGame.redraws g' = S (ConsoleGame.redraws g) /\
  ConsoleGame.smart_updating g' = ConsoleGame.smart_updating g /\
  ConsoleGame.interval_updating g' = ConsoleGame.interval_updating g /\
  ConsoleGame.interval g' = ConsoleGame.interval g /\
  ConsoleGame._pending_update g' = ConsoleGame._pending_update g.
Proof.
  unfold ConsoleGame._update_and_display_board, ConsoleGame.redraws.
  destruct (_Board._original _ _) as [[w h1]|e]; simpl.
  - destruct (ConsoleGame.display_players _ h1 _) as [[r h2] ps].
    destruct r as [[]|e]; [destruct (_Board.__str__ h2 _) as [s|e]|]; simpl;
      rewrite ?List.filter_app, ?length_app; simpl; repeat split; lia.
  - rewrite List.filter_app, length_app. simpl. repeat split; lia.
Qed.

Lemma preserves_and {A : Type} (P1 P2 : ConsoleGame.t -> Prop)
    (m : ConsoleGame.M A) :
  preserves P1 m -> preserves P2 m -> preserves (fun g => P1 g /\ P2 g) m.
Proof. intros H1 H2 g [HP1 HP2]. split; [by apply H1 | by apply H2]. Qed.

(** The update stage of a smart game: nothing when the flag is down, the
    redraw followed at once by the clearing of the flag when it is up. *)
Lemma update_stage_smart (it : Z) (g : ConsoleGame.t) :
  ConsoleGame.smart_updating g = true ->
  ConsoleGame.update_stage it g =
    if ConsoleGame._pending_update g then
      match ConsoleGame._update_and_display_board g with
      | (Return _, g') => (Return tt, ConsoleGame.set__pending_update false g')
      | (Raise e, g') => (Raise e, g')
      end
    else (Return tt, g).
Proof.
  intros Hs. unfold ConsoleGame.update_stage, ConsoleGame.bind. rewrite Hs.
  destruct (ConsoleGame._pending_update g); [|done].
  by destruct (ConsoleGame._update_and_display_board g) as [[[]|e] g'].
Qed.

Lemma update_stage_smart_returned (it : Z) (g g' : ConsoleGame.t) :
  ConsoleGame.smart_updating g = true ->
  ConsoleGame.update_stage it g = (Return tt, g') ->
  ConsoleGame.smart_updating g' = true /\ ConsoleGame._pending_update g' = false.
Proof.
  intros Hs. rewrite (update_stage_smart it g Hs).
  destruct (ConsoleGame._pending_update g) eqn:Hp.
  - pose proof (redraw_frame g) as (_ & Hs' & _).
    destruct (ConsoleGame._update_and_display_board g) as [[[]|e] g1]; [|done].
    intros [= <-]. simpl in *. split; [congruence | done].
  - by intros [= <-].
Qed.

(** With the interval at 1, and the flag up if the game is smart, the
    update stage redraws, whatever the mode and the iteration. *)
Lemma update_stage_redraws (it : Z) (g : ConsoleGame.t) :
  ConsoleGame.interval g = 1 ->
  (ConsoleGame.smart_updating g = true -> ConsoleGame._pending_update g = true) ->
  ConsoleGame.redraws (snd (ConsoleGame.update_stage it g)) =
    S (ConsoleGame.redraws g).
Proof.
  intros Hi Hp. pose proof (redraw_frame g) as (Hr & _).
  destruct (ConsoleGame.smart_updating g) eqn:Hs.
  - rewrite (update_stage_smart it g Hs), (Hp eq_refl).
    by destruct (ConsoleGame._update_and_display_board g) as [[[]|e] g'].
  - unfold ConsoleGame.update_stage. rewrite Hs, Hi, Z.mod_1_r. simpl.
    by destruct (ConsoleGame.interval_updating g).
Qed.

Lemma update_stage_interval (it : Z) :
  preserves (fun g => ConsoleGame.interval g = 1) (ConsoleGame.update_stage it).
Proof.
  intros g Hi. pose proof (redraw_frame g) as (_ & _ & _ & Hi' & _).
  unfold ConsoleGame.update_stage, ConsoleGame.bind.
  destruct (ConsoleGame.smart_updating g).
  - destruct (ConsoleGame._pending_update g); [|done].
    destruct (ConsoleGame._update_and_display_board g) as [[[]|e] g'];
      simpl in *; congruence.
  - destruct (ConsoleGame.interval_updating g); [|simpl in *; congruence].
    rewrite Hi, Z.mod_1_r. simpl in *. congruence.
Qed.

(** A turn of the loop on a smart game whose flag is down, with hooks making
    quiet calls only: no redraw, and the flag stays down. *)
Lemma loop_body_idle (env : ConsoleGame.hooks) (c0 : list console_event) (it : Z) :
  (forall f a s, Forall quiet (env f a s)) ->
  preserves (fun g => ConsoleGame.smart_updating g = true /\
                      ConsoleGame._pending_update g = false /\
                      ConsoleGame.console g = c0)
    (ConsoleGame.loop_body env it).
Proof.
  intros Hq. unfold ConsoleGame.loop_body.
  apply preserves_bind.
  { apply (before_update_preserves quiet); [apply run_call_quiet | done | done]. }
  intros _. apply preserves_bind.
  { intros g (Hs & Hp & Hc). rewrite (update_stage_smart it g Hs), Hp. done. }
  intros _.
  apply (after_update_preserves quiet); [apply run_call_quiet | done].
Qed.

(** Claim C6. In smart-updating mode the update stage of a turn
    redraws if and only if the pending-update flag is set when the stage is
    reached, and does nothing at all otherwise; when the redraw returns, the
    stage is that redraw followed at once by the clearing of the flag; and
    after a turn that returned, the flag is down, so that a next turn in
    which the hooks make no dirty-marking call does not redraw and leaves
    the flag down for the turns after it. *)
Theorem smart_updating_redraws_iff_pending (env : ConsoleGame.hooks) :
  (forall it g,
     ConsoleGame.smart_updating g = true ->
     (ConsoleGame.redraws (snd (ConsoleGame.update_stage it g)) =
        S (ConsoleGame.redraws g) <->
      ConsoleGame._pending_update g = true) /\
     (ConsoleGame._pending_update g = false ->
      ConsoleGame.update_stage it g = (Return tt, g))) /\
  (forall it g g1,
     ConsoleGame.smart_updating g = true ->
     ConsoleGame._pending_update g = true ->
     ConsoleGame._update_and_display_board g = (Return tt, g1) ->
     ConsoleGame.update_stage it g =
       (Return tt, ConsoleGame.set__pending_update false g1)) /\
  ((forall f a s, Forall quiet (env f a s)) ->
   forall it g g1,
     ConsoleGame.smart_updating g = true ->
     ConsoleGame.loop_body env it g = (Return tt, g1) ->
     ConsoleGame.smart_updating g1 = true /\
     ConsoleGame._pending_update g1 = false /\
     forall it',
       let g2 := snd (ConsoleGame.loop_body env it' g1) in
       ConsoleGame.redraws g2 = ConsoleGame.redraws g1 /\
       ConsoleGame.smart_updating g2 = true /\
       ConsoleGame._pending_update g2 = false).
Proof.
  split; [|split].
  - intros it g Hs. rewrite (update_stage_smart it g Hs).
    pose proof (redraw_frame g) as (Hr & _).
    destruct (ConsoleGame._pending_update g).
    + split; [|done]. split; [done|]. intros _.
      by destruct (ConsoleGame._update_and_display_board g) as [[[]|e] g'].
    + split; [|done]. simpl. split; [lia | done].
  - intros it g g1 Hs Hp Hr. by rewrite (update_stage_smart it g Hs), Hp, Hr.
  - intros Hq it g g1 Hs Hloop.
    assert (Hdown : ConsoleGame.smart_updating g1 = true /\
                    ConsoleGame._pending_update g1 = false).
    { unfold ConsoleGame.loop_body, ConsoleGame.bind in Hloop.
      pose proof (before_update_preserves quiet _
                    (run_call_quiet true (ConsoleGame._pending_update g)
                       (ConsoleGame.console g)) env Hq
                    (fun _ _ H => H) g (conj Hs (conj eq_refl eq_refl))) as Hb.
      destruct (ConsoleGame.before_update env g) as [[[]|e] ga]; [|done].
      destruct Hb as (Hsa & _).
      destruct (ConsoleGame.update_stage it ga) as [[[]|e] gb] eqn:Hu; [|done].
      destruct (update_stage_smart_returned it ga gb Hsa Hu) as (Hsb & Hpb).
      pose proof (after_update_preserves quiet _
                    (run_call_quiet true false (ConsoleGame.console gb)) env Hq
                    gb (conj Hsb (conj Hpb eq_refl))) as Ha.
      rewrite Hloop in Ha. by destruct Ha as (? & ? & _). }
    destruct Hdown as (Hs1 & Hp1). split; [done|]. split; [done|].
    intros it' g2.
    destruct (loop_body_idle env (ConsoleGame.console g1) it' Hq g1
                (conj Hs1 (conj Hp1 eq_refl))) as (Hs2 & Hp2 & Hc2).
    fold g2 in Hs2, Hp2, Hc2. unfold ConsoleGame.redraws. by rewrite Hc2.
Qed.

(** The theorem on a five by five board with one player, smart updating and
    no hook: the first turn redraws, the second does not. *)
Lemma smart_updating_redraws_iff_pending_witness :
  let env : ConsoleGame.hooks := fun _ _ _ => [] in
  exists g0 g1 g2 g3,
    new_game (blank 5 5) = Return g0 /\
    ConsoleGame.add_player "@" (2, 2) (KeyStr "up") (KeyStr "left")
      (KeyStr "down") (KeyStr "right") false None g0 = (Return 0%nat, g1) /\
    ConsoleGame.initialize true false None None None 0 g1 = (Return tt, g2) /\
    ConsoleGame.loop_body env 0 g2 = (Return tt, g3) /\
    ConsoleGame.redraws g3 = 1%nat /\
    ConsoleGame.smart_updating g3 = true /\
    ConsoleGame._pending_update g3 = false /\
    forall it',
      let g4 := snd (ConsoleGame.loop_body env it' g3) in
      ConsoleGame.redraws g4 = ConsoleGame.redraws g3 /\
      ConsoleGame.smart_updating g4 = true /\
      ConsoleGame._pending_update g4 = false.
Proof.
  intros env. eexists _, _, _, _.
  split; [vm_compute; reflexivity|].
  split; [vm_compute; reflexivity|].
  split; [vm_compute; reflexivity|].
  match goal with
  | |- ConsoleGame.loop_body _ _ ?s = _ /\ _ => set (g2 := s)
  end.
  split; [vm_compute; reflexivity|].
  split; [reflexivity|].
  refine (proj2 (proj2 (smart_updating_redraws_iff_pending env)) _ 0 g2 _ _ _).
  - intros f a s. constructor.
  - reflexivity.
  - vm_compute. reflexivity.
Defined.

(** Claim C9. [initialize] leaves the interval at 1 whatever its
    arguments; no call of the public interface and no turn of the loop moves
    it from 1; with the interval at 1 the test [iteration % interval == 0]
    of interval updating holds at every iteration, so that the update stage
    of an interval-updating game that is not smart is the redraw itself,
    which is also what the update stage of the default mode is. *)
Theorem interval_updating_redraws_on_every_iteration (env : ConsoleGame.hooks) :
  (forall su iu pre post onk d g,
     ConsoleGame.interval (snd (ConsoleGame.initialize su iu pre post onk d g)) = 1) /\
  (forall c, preserves (fun g => ConsoleGame.interval g = 1) (ConsoleGame.run_call c)) /\
  (forall it,
     preserves (fun g => ConsoleGame.interval g = 1) (ConsoleGame.loop_body env it)) /\
  (forall it g,
     ConsoleGame.interval g = 1 ->
     ConsoleGame.smart_updating g = false ->
     ConsoleGame.interval_updating g = true ->
     (it mod ConsoleGame.interval g =? 0) = true /\
     ConsoleGame.update_stage it g = ConsoleGame._update_and_display_board g) /\
  (forall it g,
     ConsoleGame.smart_updating g = false ->
     ConsoleGame.interval_updating g = false ->
     ConsoleGame.update_stage it g = ConsoleGame._update_and_display_board g).
Proof.
  split; [done|]. split; [apply run_call_interval|]. split; [|split].
  - intros it. unfold ConsoleGame.loop_body.
    apply preserves_bind.
    { apply (before_update_preserves (fun _ => True));
        [intros c _; apply run_call_interval | intros; by apply Forall_true | done]. }
    intros _. apply preserves_bind; [apply update_stage_interval|]. intros _.
    apply (after_update_preserves (fun _ => True));
      [intros c _; apply run_call_interval | intros; by apply Forall_true].
  - intros it g Hi Hs Hiu. unfold ConsoleGame.update_stage.
    rewrite Hs, Hiu, Hi, Z.mod_1_r. done.
  - intros it g Hs Hiu. unfold ConsoleGame.update_stage. by rewrite Hs, Hiu.
Qed.

(** The theorem on a five by five board initialized for interval updating:
    at iteration 7 the update stage is the redraw. *)
Lemma interval_updating_redraws_on_every_iteration_witness :
  exists g0 g1,
    new_game (blank 5 5) = Return g0 /\
    ConsoleGame.initialize false true None None None 0 g0 = (Return tt, g1) /\
    (7 mod ConsoleGame.interval g1 =? 0) = true /\
    ConsoleGame.update_stage 7 g1 = ConsoleGame._update_and_display_board g1.
Proof.
  eexists _, _.
  split; [vm_compute; reflexivity|].
  split; [vm_compute; reflexivity|].
  refine (proj1 (proj2 (proj2 (proj2
            (interval_updating_redraws_on_every_iteration (fun _ _ _ => []))))) 7 _ _ _ _);
    reflexivity.
Defined.

(** Claim C10. [initialize] with smart updating leaves the game
    active, smart and with the pending-update flag set, so that [start]
    runs a first turn; the update stage of iteration 0 run on that state
    redraws; and the first turn of the loop
    redraws whenever its part before the update stage (the [preupdate] hook
    and the key input) returns, whatever calls of the public interface the
    hooks make. *)
Theorem first_iteration_redraws_after_initialize
    (env : ConsoleGame.hooks) (g : ConsoleGame.t) (iu : bool)
    (pre post onk : option nat) (d : Q) :
  let g1 := snd (ConsoleGame.initialize true iu pre post onk d g) in
  ConsoleGame._pending_update g1 = true /\
  ConsoleGame.smart_updating g1 = true /\
  ConsoleGame._active g1 = true /\
  (forall fuel,
     ConsoleGame.start (S fuel) env g1 =
       match ConsoleGame.loop_body env 0 g1 with
       | (Return _, g2) => ConsoleGame.start_from fuel env 1 g2
       | (Raise e, g2) => Some (Raise e, g2)
       end) /\
  ConsoleGame.redraws (snd (ConsoleGame.update_stage 0 g1)) =
    S (ConsoleGame.redraws g1) /\
  (fst (ConsoleGame.before_update env g1) = Return tt ->
   ConsoleGame.redraws (snd (ConsoleGame.loop_body env 0 g1)) =
     S (ConsoleGame.redraws g1)).
Proof.
  intros g1. split; [done|]. split; [done|]. split; [done|].
  split; [done|]. split.
  { by apply update_stage_redraws. }
  intros Hret. unfold ConsoleGame.loop_body, ConsoleGame.bind.
  pose proof (before_update_preserves (fun _ => True)
                (fun s => ConsoleGame.console s = ConsoleGame.console g1 /\
                          ConsoleGame.interval s = 1 /\
                          (ConsoleGame.smart_updating s = true ->
                           ConsoleGame._pending_update s = true))) as Hb.
  specialize (Hb (fun c _ => preserves_and _ _ _ (run_call_console _ c)
                     (preserves_and _ _ _ (run_call_interval c)
                        (run_call_smart_pending c)))
                env (fun _ _ _ => Forall_true _ _ (fun _ => I))
                (fun _ _ H => H) g1 (conj eq_refl (conj eq_refl (fun _ => eq_refl)))).
  destruct (ConsoleGame.before_update env g1) as [[[]|e] ga]; [|done].
  simpl in Hb. destruct Hb as (Hc & Hi & Hp).
  pose proof (update_stage_redraws 0 ga Hi Hp) as Hr.
  assert (Hga : ConsoleGame.redraws ga = ConsoleGame.redraws g1)
    by (unfold ConsoleGame.redraws; by rewrite Hc).
  destruct (ConsoleGame.update_stage 0 ga) as [[[]|e] gb]; simpl in Hr;
    [|simpl; lia].
  pose proof (after_update_preserves (fun _ => True) _
                (fun c _ => run_call_console (ConsoleGame.console gb) c)
                env (fun _ _ _ => Forall_true _ _ (fun _ => I)) gb eq_refl) as Ha.
  unfold ConsoleGame.redraws in *. rewrite Ha. lia.
Qed.

(** The theorem on a five by five board with one player and no hook, no key
    waiting. *)
Lemma first_iteration_redraws_after_initialize_witness :
  let env : ConsoleGame.hooks := fun _ _ _ => [] in
  exists g0 g1,
    new_game (blank 5 5) = Return g0 /\
    ConsoleGame.add_player "@" (2, 2) (KeyStr "up") (KeyStr "left")
      (KeyStr "down") (KeyStr "right") false None g0 = (Return 0%nat, g1) /\
    let g2 := snd (ConsoleGame.initialize true false None None None 0 g1) in
    fst (ConsoleGame.before_update env g2) = Return tt /\
    ConsoleGame.redraws (snd (ConsoleGame.loop_body env 0 g2)) =
      S (ConsoleGame.redraws g2).
Proof.
  intros env. eexists _, _.
  split; [vm_compute; reflexivity|].
  split; [vm_compute; reflexivity|].
  intros g2.
  assert (Hret : fst (ConsoleGame.before_update env g2) = Return tt)
    by reflexivity.
  split; [exact Hret|].
  exact (proj2 (proj2 (proj2 (proj2 (proj2
           (first_iteration_redraws_after_initialize env _ false None None None 0)))))
           Hret).
Defined.

(** ** Scenarios *)

(** A player at (0, 0) of a five by five board whose up key-set is [{"w"}]:
    the key [w] takes its row to -1 and marks the game dirty, the redraw
    pins the row back to 0 and draws the player in the first cell. *)
Example scenario_up_at_the_top_edge :
  exists g0 g1 g2 g3,
    new_game (blank 5 5) = Return g0 /\
    ConsoleGame.add_player "@" (0, 0) (KeySet ["w"]) (KeyStr "left")
      (KeyStr "down") (KeyStr "right") false None g0 = (Return 0%nat, g1) /\
    ConsoleGame.change_player_position 0 "w" g1 = (Return 0, g2) /\
    map _Player.pos (ConsoleGame.Players g2) = [(0, -1)] /\
    ConsoleGame._pending_update g2 = true /\
    ConsoleGame._update_and_display_board g2 = (Return tt, g3) /\
    map _Player.pos (ConsoleGame.Players g3) = [(0, 0)] /\
    ConsoleGame.console g3 =
      [Clear;
       Writeline
         (_Board.render
            (<[0%nat := <[0%nat := "@"%string]> (replicate 5 " "%string)]>
               (blank 5 5)))].
Proof.
  eexists _, _, _, _.
  split; [vm_compute; reflexivity|].
  split; [vm_compute; reflexivity|].
  split; [vm_compute; reflexivity|].
  split; [reflexivity|]. split; [reflexivity|].
  split; [vm_compute; reflexivity|].
  split; reflexivity.
Qed.

(** A player at (4, 4) of a five by five board pushed to column 5 by the
    right key: the redraw takes the overflow of 1 off, and the player is
    stored and drawn at (4, 4). *)
Example scenario_right_at_the_right_edge :
  exists g0 g1 g2 g3,
    new_game (blank 5 5) = Return g0 /\
    ConsoleGame.add_player "@" (4, 4) (KeyStr "up") (KeyStr "left")
      (KeyStr "down") (KeyStr "right") false None g0 = (Return 0%nat, g1) /\
    ConsoleGame.change_player_position 0 "right" g1 = (Return 0, g2) /\
    map _Player.pos (ConsoleGame.Players g2) = [(5, 4)] /\
    ConsoleGame._update_and_display_board g2 = (Return tt, g3) /\
    map _Player.pos (ConsoleGame.Players g3) = [(4, 4)] /\
    read_grid (ConsoleGame.store g3) (_Board.board (ConsoleGame.board g3)) =
      Some (<[4%nat := <[4%nat := "@"%string]> (replicate 5 " "%string)]>
              (blank 5 5)).
Proof.
  eexists _, _, _, _.
  split; [vm_compute; reflexivity|].
  split; [vm_compute; reflexivity|].
  split; [vm_compute; reflexivity|].
  split; [reflexivity|].
  split; [vm_compute; reflexivity|].
  split; reflexivity.
Qed.

(** The default key-sets are strings, and [in] on a string looks for a
    substring: the letter [l] moves a default player left. *)
Example default_key_set_is_a_string :
  contains (KeyStr "left") "l" = true /\
  contains (KeyStr "left") "left" = true /\
  contains (KeySet ["left"]) "l" = false.
Proof. repeat split. Qed.

(** A grid built as [[[" "] * 2] * 2] is one row object twice; the copy the
    redraw works on keeps that sharing, and the player shows in both
    rows. *)
Example shared_rows_stay_shared :
  let '(b, h) := new_shared_grid [] [" "; " "]%string 2 in
  exists g0 g1 g2,
    ConsoleGame.__init__ h b = Return g0 /\
    ConsoleGame.add_player "@" (0, 0) (KeyStr "up") (KeyStr "left")
      (KeyStr "down") (KeyStr "right") false None g0 = (Return 0%nat, g1) /\
    ConsoleGame._update_and_display_board g1 = (Return tt, g2) /\
    read_grid (ConsoleGame.store g2) (_Board.board (ConsoleGame.board g2)) =
      Some [["@"; " "]; ["@"; " "]]%string.
Proof.
  eexists _, _, _.
  split; [vm_compute; reflexivity|].
  split; [vm_compute; reflexivity|].
  split; [vm_compute; reflexivity|].
  reflexivity.
Qed.

(** The arrow keys arrive as the byte 0xe0 and a scan code; an unknown scan
    code gives ["NULL"], a lone byte above 0x7f does not decode. *)
Example _get_input_on_bytes :
  forall g,
    let typed bytes :=
      fst (ConsoleGame._get_input (ConsoleGame.set_keyboard bytes g)) in
    typed [224; 72] = Return "up"%string /\
    typed [224; 1] = Return "NULL"%string /\
    typed [119] = Return "w"%string /\
    typed [200] = Raise UnicodeDecodeError.
Proof. intros g. repeat split. Qed.

(** * Further properties of the code *)

(** ** Key input *)

(** X1. After the sentinel byte 0xe0, [_get_input] returns for every scan
    code: it takes the two bytes off the input buffer and touches nothing
    else, and its result is one of the four direction words for the scan
    codes 72, 80, 77 and 75 and ["NULL"] for every other one. *)
Theorem _get_input_after_sentinel
    (g : ConsoleGame.t) (scan : Z) (rest : list Z) :
  ConsoleGame.keyboard g = 224 :: scan :: rest ->
  exists key,
    ConsoleGame._get_input g = (Return key, ConsoleGame.set_keyboard rest g) /\
    (scan = 72 -> key = "up"%string) /\
    (scan = 80 -> key = "down"%string) /\
    (scan = 77 -> key = "right"%string) /\
    (scan = 75 -> key = "left"%string) /\
    (scan <> 72 -> scan <> 80 -> scan <> 77 -> scan <> 75 ->
     key = "NULL"%string).
Proof.
  intros Hk.
  unfold ConsoleGame._get_input, ConsoleGame.bind, ConsoleGame.getch,
    ConsoleGame.ret.
  rewrite Hk. simpl.
  eexists. split; [reflexivity|].
  destruct (Z.eqb_spec scan 72) as [->|H72]; [by repeat split|].
  destruct (Z.eqb_spec scan 80) as [->|H80]; [by repeat split|].
  destruct (Z.eqb_spec scan 77) as [->|H77]; [by repeat split|].
  destruct (Z.eqb_spec scan 75) as [->|H75]; by repeat split.
Qed.

Lemma _get_input_after_sentinel_witness :
  exists g0,
    new_game (blank 5 5) = Return g0 /\
    exists key,
      ConsoleGame._get_input (ConsoleGame.set_keyboard [224; 1; 119] g0) =
        (Return key, ConsoleGame.set_keyboard [119] g0) /\
      key = "NULL"%string.
Proof.
  eexists. split; [vm_compute; reflexivity|].
  match goal with
  | |- context [ConsoleGame._get_input ?g] =>
      destruct (_get_input_after_sentinel g 1 [119] eq_refl)
        as (key & Heq & _ & _ & _ & _ & Hnull)
  end.
  exists key. split; [exact Heq|]. apply Hnull; discriminate.
Defined.

(** X2. A first byte other than the sentinel is taken off the buffer alone.
    Below 0x80 it is returned as a string of one character, whose code is
    the byte; from 0x80 on [_get_input] raises UnicodeDecodeError, the byte
    being lost. *)
Theorem _get_input_plain_byte (g : ConsoleGame.t) (b : Z) (rest : list Z) :
  ConsoleGame.keyboard g = b :: rest -> 0 <= b -> b <> 224 ->
  (b < 128 ->
   ConsoleGame._get_input g = (Return (chr b), ConsoleGame.set_keyboard rest g) /\
   String.length (chr b) = 1%nat /\
   exists c, chr b = String c EmptyString /\ Z.of_nat (Ascii.nat_of_ascii c) = b) /\
  (128 <= b ->
   ConsoleGame._get_input g =
     (Raise UnicodeDecodeError, ConsoleGame.set_keyboard rest g)).
Proof.
  intros Hk H0 Hs.
  unfold ConsoleGame._get_input, ConsoleGame.bind, ConsoleGame.getch,
    ConsoleGame.ret, ConsoleGame.raise.
  rewrite Hk. simpl.
  destruct (Z.eqb_spec b 224) as [|_]; [done|].
  split; intros Hb.
  - destruct (Z.ltb_spec b 128); [|lia].
    split; [reflexivity|]. split; [reflexivity|].
    eexists. split; [reflexivity|].
    rewrite Ascii.nat_ascii_embedding; lia.
  - destruct (Z.ltb_spec b 128); [lia | reflexivity].
Qed.

Lemma _get_input_plain_byte_witness :
  exists g0,
    new_game (blank 5 5) = Return g0 /\
    ConsoleGame._get_input (ConsoleGame.set_keyboard [119; 97] g0) =
      (Return "w"%string, ConsoleGame.set_keyboard [97] g0).
Proof.
  eexists. split; [vm_compute; reflexivity|].
  match goal with
  | |- ConsoleGame._get_input ?g = _ =>
      exact (proj1 (proj1 (_get_input_plain_byte g 119 [97]
                             eq_refl ltac:(lia) ltac:(lia)) ltac:(lia)))
  end.
Defined.

(** X3. The arrow keys drive a player that has the default key-sets: what
    [_get_input] returns after the sentinel moves such a player up for the
    scan code 72, down for 80, right for 77 and left for 75, by one cell,
    and is ignored (-1, player untouched) for every other scan code. *)
Theorem arrow_keys_move_a_default_player
    (g : ConsoleGame.t) (scan : Z) (rest : list Z) (p : _Player.t) :
  ConsoleGame.keyboard g = 224 :: scan :: rest ->
  _Player.left p = KeyStr "left" -> _Player.right p = KeyStr "right" ->
  _Player.up p = KeyStr "up" -> _Player.down p = KeyStr "down" ->
  exists key,
    fst (ConsoleGame._get_input g) = Return key /\
    _Player.change_position p key =
      if scan =? 72 then (0, _Player._change_position p 0 (-1))
      else if scan =? 80 then (0, _Player._change_position p 0 1)
      else if scan =? 77 then (0, _Player._change_position p 1 0)
      else if scan =? 75 then (0, _Player._change_position p (-1) 0)
      else (-1, p).
Proof.
  intros Hk Hl Hr Hu Hd.
  unfold ConsoleGame._get_input, ConsoleGame.bind, ConsoleGame.getch,
    ConsoleGame.ret.
  rewrite Hk. simpl. eexists. split; [reflexivity|].
  unfold _Player.change_position. rewrite Hl, Hr, Hu, Hd.
  destruct (scan =? 72); [reflexivity|].
  destruct (scan =? 80); [reflexivity|].
  destruct (scan =? 77); [reflexivity|].
  destruct (scan =? 75); reflexivity.
Qed.

Lemma arrow_keys_move_a_default_player_witness :
  exists g0,
    new_game (blank 5 5) = Return g0 /\
    let p := _Player.__init__ "@" (2, 2) (KeyStr "up") (KeyStr "left")
               (KeyStr "down") (KeyStr "right") false None in
    exists key,
      fst (ConsoleGame._get_input (ConsoleGame.set_keyboard [224; 75] g0)) =
        Return key /\
      _Player.pos (snd (_Player.change_position p key)) = (1, 2).
Proof.
  eexists. split; [vm_compute; reflexivity|]. intros p.
  match goal with
  | |- context [ConsoleGame._get_input ?g] =>
      destruct (arrow_keys_move_a_default_player g 75 [] p
                  eq_refl eq_refl eq_refl eq_refl eq_refl) as (key & Hk & Hm)
  end.
  exists key. split; [exact Hk|]. rewrite Hm. reflexivity.
Defined.

(** ** Movement and entities *)

(** X4. [change_position] either returns 0 and has moved the player by
    exactly one cell along exactly one axis, or returns -1 and has left the
    player as it was; it never changes the glyph, the key-sets, the
    collision flag or the callback. *)
Theorem change_position_is_one_step_or_nothing (p : _Player.t) (key : string) :
  let res := fst (_Player.change_position p key) in
  let p' := snd (_Player.change_position p key) in
  ((res = 0 /\ Z.abs (col p' - col p) + Z.abs (row p' - row p) = 1) \/
   (res = -1 /\ p' = p)) /\
  _Player.char p' = _Player.char p /\
  _Player.left p' = _Player.left p /\ _Player.right p' = _Player.right p /\
  _Player.up p' = _Player.up p /\ _Player.down p' = _Player.down p /\
  _Player.collideable p' = _Player.collideable p /\
  _Player.action p' = _Player.action p.
Proof.
  unfold _Player.change_position, col, row.
  destruct (contains (_Player.left p) key);
    [|destruct (contains (_Player.right p) key);
      [|destruct (contains (_Player.up p) key);
        [|destruct (contains (_Player.down p) key)]]];
    simpl; (split; [|by repeat split]);
    first [right; by split | left; split; [done | lia]].
Qed.

(** X5. Opposite moves cancel: a key of the left set followed by a key that
    is in the right set and not in the left set brings the player back, and
    so do a key of the up set followed by a key of the down set when neither
    is in the left or the right set and the second is not in the up set. *)
Theorem opposite_moves_cancel (p : _Player.t) (k1 k2 : string) :
  (contains (_Player.left p) k1 = true ->
   contains (_Player.left p) k2 = false ->
   contains (_Player.right p) k2 = true ->
   snd (_Player.change_position (snd (_Player.change_position p k1)) k2) = p) /\
  (contains (_Player.left p) k1 = false ->
   contains (_Player.right p) k1 = false ->
   contains (_Player.up p) k1 = true ->
   contains (_Player.left p) k2 = false ->
   contains (_Player.right p) k2 = false ->
   contains (_Player.up p) k2 = false ->
   contains (_Player.down p) k2 = true ->
   snd (_Player.change_position (snd (_Player.change_position p k1)) k2) = p).
Proof.
  destruct p as [ch [c r] kl kr ku kd co ac].
  unfold _Player.change_position, _Player._change_position, _Player.set_pos.
  simpl. split.
  - intros H1 H2 H3. rewrite H1. simpl. rewrite H2, H3. simpl.
    do 2 f_equal; lia.
  - intros H1 H2 H3 H4 H5 H6 H7. rewrite H1, H2, H3. simpl.
    rewrite H4, H5, H6, H7. simpl. do 2 f_equal; lia.
Qed.

Lemma opposite_moves_cancel_witness :
  let p := _Player.__init__ "@" (2, 2) (KeySet ["w"]) (KeySet ["a"])
             (KeySet ["s"]) (KeySet ["d"]) false None in
  snd (_Player.change_position (snd (_Player.change_position p "a")) "d") = p.
Proof.
  intros p.
  exact (proj1 (opposite_moves_cancel p "a" "d") eq_refl eq_refl eq_refl).
Defined.

(** X6. [change_player_position] acts on the player it is given and on the
    flag alone: that player becomes what [change_position] makes of it,
    every other player, the number of players, the board, the object store,
    the terminal and the update mode stay as they were. *)
Theorem change_player_position_touches_one_player
    (g : ConsoleGame.t) (i : nat) (p : _Player.t) (key : string) :
  ConsoleGame.Players g !! i = Some p ->
  let res := fst (ConsoleGame.change_player_position i key g) in
  let g' := snd (ConsoleGame.change_player_position i key g) in
  res = Return (fst (_Player.change_position p key)) /\
  ConsoleGame.Players g' !! i = Some (snd (_Player.change_position p key)) /\
  (forall j, j <> i -> ConsoleGame.Players g' !! j = ConsoleGame.Players g !! j) /\
  length (ConsoleGame.Players g') = length (ConsoleGame.Players g) /\
  ConsoleGame.board g' = ConsoleGame.board g /\
  ConsoleGame.store g' = ConsoleGame.store g /\
  ConsoleGame.console g' = ConsoleGame.console g /\
  ConsoleGame.Collectibles g' = ConsoleGame.Collectibles g /\
  ConsoleGame.smart_updating g' = ConsoleGame.smart_updating g /\
  ConsoleGame.interval_updating g' = ConsoleGame.interval_updating g /\
  ConsoleGame._active g' = ConsoleGame._active g.
Proof.
  intros Hp. unfold ConsoleGame.change_player_position. rewrite Hp.
  destruct (_Player.change_position p key) as [res p']. simpl.
  split; [done|]. split.
  { apply list_lookup_insert_eq. by eapply lookup_lt_Some. }
  split; [intros j Hj; by apply list_lookup_insert_ne|].
  split; [apply length_insert|]. by repeat split.
Qed.

Lemma change_player_position_touches_one_player_witness :
  exists g0 g1 g2,
    new_game (blank 5 5) = Return g0 /\
    add_player_by_default "@" (2, 2) g0 = (Return 0%nat, g1) /\
    add_player_by_default "#" (3, 3) g1 = (Return 1%nat, g2) /\
    let g' := snd (ConsoleGame.change_player_position 0 "left" g2) in
    map _Player.pos (ConsoleGame.Players g') = [(1, 2); (3, 3)] /\
    ConsoleGame.Players g' !! 1%nat = ConsoleGame.Players g2 !! 1%nat.
Proof.
  eexists _, _, _.
  split; [vm_compute; reflexivity|].
  split; [vm_compute; reflexivity|].
  split; [vm_compute; reflexivity|].
  intros g'. split; [reflexivity|].
  subst g'.
  match goal with
  | |- context [ConsoleGame.change_player_position 0 "left" ?g] =>
      destruct (change_player_position_touches_one_player g 0
                  (_Player.__init__ "@" (2, 2) (KeyStr "up") (KeyStr "left")
                     (KeyStr "down") (KeyStr "right") false None)
                  "left" eq_refl) as (_ & _ & Hother & _)
  end.
  apply Hother. discriminate.
Defined.

Lemma lookup_alloc_players (ps : list _Player.t) (p : _Player.t) :
  (ps ++ [p]) !! length ps = Some p.
Proof. by apply list_lookup_middle. Qed.

(** X7. [add_player] appends: the reference it returns leads to a player
    with the glyph, the start position and the key-sets given, the players
    already there keep their references, and [change_player_position]
    accepts the new reference. It does not mark the game dirty: on a smart
    game whose flag is down the update stage that follows draws nothing, so
    the new player stays unseen until something else sets the flag. *)
Theorem add_player_appends_without_marking_dirty
    (g : ConsoleGame.t) (character : string) (start_pos : Z * Z)
    (mov_u mov_l mov_d mov_r : keys) (co : bool) (ca : option nat) :
  let r := fst (ConsoleGame.add_player character start_pos mov_u mov_l mov_d
                  mov_r co ca g) in
  let g' := snd (ConsoleGame.add_player character start_pos mov_u mov_l mov_d
                   mov_r co ca g) in
  exists i p,
    r = Return i /\
    ConsoleGame.Players g' !! i = Some p /\
    _Player.char p = character /\ _Player.pos p = start_pos /\
    _Player.up p = mov_u /\ _Player.left p = mov_l /\
    _Player.down p = mov_d /\ _Player.right p = mov_r /\
    length (ConsoleGame.Players g') = S (length (ConsoleGame.Players g)) /\
    (forall j q, ConsoleGame.Players g !! j = Some q ->
                 ConsoleGame.Players g' !! j = Some q) /\
    (forall key, is_return (fst (ConsoleGame.change_player_position i key g')) = true) /\
    ConsoleGame._pending_update g' = ConsoleGame._pending_update g /\
    ConsoleGame.console g' = ConsoleGame.console g /\
    (ConsoleGame.smart_updating g = true ->
     ConsoleGame._pending_update g = false ->
     forall it, ConsoleGame.update_stage it g' = (Return tt, g')).
Proof.
  intros r g'. subst r g'. unfold ConsoleGame.add_player. simpl.
  eexists _, _. split; [reflexivity|].
  split; [apply lookup_alloc_players|].
  repeat (split; [reflexivity|]).
  split; [rewrite length_app; simpl; lia|].
  split; [intros j q Hj; by apply lookup_app_l_Some|].
  split.
  { intros key. unfold ConsoleGame.change_player_position. simpl.
    rewrite lookup_alloc_players.
    by destruct (_Player.change_position _ key). }
  repeat (split; [reflexivity|]).
  intros Hs Hp it. by rewrite update_stage_smart; simpl; rewrite ?Hp.
Qed.

Lemma add_player_appends_without_marking_dirty_witness :
  exists g0 g1,
    new_game (blank 5 5) = Return g0 /\
    ConsoleGame.initialize true false None None None 0 g0 = (Return tt, g1) /\
    let g2 := ConsoleGame.set__pending_update false g1 in
    let g3 := snd (add_player_by_default "@" (2, 2) g2) in
    ConsoleGame.smart_updating g2 = true /\
    ConsoleGame._pending_update g2 = false /\
    ConsoleGame.update_stage 0 g3 = (Return tt, g3).
Proof.
  eexists _, _.
  split; [vm_compute; reflexivity|].
  split; [vm_compute; reflexivity|].
  intros g2 g3.
  split; [reflexivity|]. split; [reflexivity|].
  destruct (add_player_appends_without_marking_dirty g2 "@" (2, 2)
              (KeyStr "up") (KeyStr "left") (KeyStr "down") (KeyStr "right")
              false None) as (i & p & H).
  decompose [and] H. clear H.
  match goal with
  | Hquiet : _ -> _ -> forall it, _ |- _ => exact (Hquiet eq_refl eq_refl 0)
  end.
Defined.

(** X8. Collectibles are kept and never drawn: [add_collectible] appends to
    its own list, with the callback given or [do_nothing] in its place, and
    a redraw gives the same result, the same terminal output and the same
    players whatever the list of collectibles holds. *)
Theorem collectibles_are_never_drawn
    (g : ConsoleGame.t) (cs : list _Collectible.t)
    (character : string) (pos : Z * Z) (action : option nat) :
  (ConsoleGame._update_and_display_board (ConsoleGame.set_Collectibles cs g) =
     (fst (ConsoleGame._update_and_display_board g),
      ConsoleGame.set_Collectibles cs
        (snd (ConsoleGame._update_and_display_board g)))) /\
  let g' := snd (ConsoleGame.add_collectible character pos action g) in
  fst (ConsoleGame.add_collectible character pos action g) =
    Return (length (ConsoleGame.Collectibles g)) /\
  ConsoleGame.Collectibles g' =
    ConsoleGame.Collectibles g ++
      [{| _Collectible.char := character; _Collectible.pos := pos;
          _Collectible.action :=
            match action with Some f => given f | None => do_nothing end |}] /\
  ConsoleGame.Players g' = ConsoleGame.Players g /\
  fst (ConsoleGame._update_and_display_board g') =
    fst (ConsoleGame._update_and_display_board g) /\
  ConsoleGame.console (snd (ConsoleGame._update_and_display_board g')) =
    ConsoleGame.console (snd (ConsoleGame._update_and_display_board g)).
Proof.
  assert (Hframe : forall cs0,
    ConsoleGame._update_and_display_board (ConsoleGame.set_Collectibles cs0 g) =
      (fst (ConsoleGame._update_and_display_board g),
       ConsoleGame.set_Collectibles cs0
         (snd (ConsoleGame._update_and_display_board g)))).
  { intros cs0. unfold ConsoleGame._update_and_display_board. simpl.
    destruct (_Board._original _ _) as [[w h1]|e]; [|done].
    destruct (ConsoleGame.display_players _ h1 _) as [[r h2] ps].
    destruct r as [[]|e]; [|done].
    by destruct (_Board.__str__ h2 _) as [s|e]. }
  split; [apply Hframe|]. intros g'. subst g'.
  unfold ConsoleGame.add_collectible. simpl.
  repeat (split; [reflexivity|]).
  rewrite Hframe. by split.
Qed.

(** ** Turns of the loop *)

(** The redraw leaves the settings of the game alone. *)
Lemma redraw_keeps_settings (g : ConsoleGame.t) :
  let g' := snd (ConsoleGame._update_and_display_board g) in
  ConsoleGame._active g' = ConsoleGame._active g /\
  ConsoleGame.preupdate g' = ConsoleGame.preupdate g /\
  ConsoleGame.postupdate g' = ConsoleGame.postupdate g /\
  ConsoleGame.on_key g' = ConsoleGame.on_key g /\
  ConsoleGame.delay g' = ConsoleGame.delay g /\
  ConsoleGame.keyboard g' = ConsoleGame.keyboard g /\
  length (ConsoleGame.Players g') = length (ConsoleGame.Players g).
Proof.
  pose proof (display_players_length) as Hlen.
  unfold ConsoleGame._update_and_display_board.
  destruct (_Board._original _ _) as [[w h1]|e]; simpl; [|done].
  specialize (Hlen (_Board.set_board w (ConsoleGame.board g))
                (ConsoleGame.Players g) h1).
  destruct (ConsoleGame.display_players _ h1 _) as [[r h2] ps].
  destruct r as [[]|e]; [destruct (_Board.__str__ h2 _) as [s|e]|]; done.
Qed.

Lemma update_stage_keeps_settings (it : Z) (g : ConsoleGame.t) :
  let g' := snd (ConsoleGame.update_stage it g) in
  ConsoleGame._active g' = ConsoleGame._active g /\
  ConsoleGame.preupdate g' = ConsoleGame.preupdate g /\
  ConsoleGame.postupdate g' = ConsoleGame.postupdate g /\
  ConsoleGame.on_key g' = ConsoleGame.on_key g /\
  ConsoleGame.delay g' = ConsoleGame.delay g /\
  ConsoleGame.keyboard g' = ConsoleGame.keyboard g /\
  (ConsoleGame.redraws g <= ConsoleGame.redraws g' <= S (ConsoleGame.redraws g))%nat.
Proof.
  pose proof (redraw_keeps_settings g) as (Ha & Hpre & Hpost & Hk & Hd & Hkb & _).
  pose proof (redraw_frame g) as (Hr & _).
  unfold ConsoleGame.update_stage, ConsoleGame.bind.
  destruct (ConsoleGame.smart_updating g).
  - destruct (ConsoleGame._pending_update g); [|simpl; repeat split; first [done | clear -Hr; unfold ConsoleGame.redraws in *; simpl in *; lia]].
    destruct (ConsoleGame._update_and_display_board g) as [[[]|e] g'];
      simpl in *; repeat split; first [done | clear -Hr; unfold ConsoleGame.redraws in *; simpl in *; lia].
  - destruct (ConsoleGame.interval_updating g).
    + destruct (ConsoleGame.interval g =? 0); [simpl; repeat split; first [done | clear -Hr; unfold ConsoleGame.redraws in *; simpl in *; lia]|].
      destruct (it mod ConsoleGame.interval g =? 0);
        simpl in *; repeat split; first [done | clear -Hr; unfold ConsoleGame.redraws in *; simpl in *; lia].
    + simpl in *; repeat split; first [done | clear -Hr; unfold ConsoleGame.redraws in *; simpl in *; lia].
Qed.

(** The three parts of a turn, one after the other. *)
Lemma loop_body_stages (env : ConsoleGame.hooks) (it : Z) (g : ConsoleGame.t) :
  ConsoleGame.loop_body env it g =
    match ConsoleGame.before_update env g with
    | (Raise e, ga) => (Raise e, ga)
    | (Return _, ga) =>
        match ConsoleGame.update_stage it ga with
        | (Raise e, gb) => (Raise e, gb)
        | (Return _, gb) => ConsoleGame.after_update env gb
        end
    end.
Proof. reflexivity. Qed.






(** X11. [quit] called by the [preupdate] hook does not cut the turn short:
    with no key waiting, the turn goes on to the update stage, which, the
    mode flags having been cleared, redraws whatever the mode and the flag
    were, and the loop ends after that turn, [start] giving what that last
    redraw gives. *)
Theorem quit_in_preupdate_still_redraws
    (env : ConsoleGame.hooks) (fuel : nat) (it : Z) (g : ConsoleGame.t) (f : nat) :
  ConsoleGame._active g = true ->
  ConsoleGame.preupdate g = Some f ->
  env f None g = [ConsoleGame.call_quit] ->
  ConsoleGame.keyboard g = [] ->
  let last := ConsoleGame._update_and_display_board (snd (ConsoleGame.quit g)) in
  ConsoleGame.start_from (S fuel) env it g = Some last /\
  ConsoleGame.redraws (snd last) = S (ConsoleGame.redraws g) /\
  ConsoleGame._active (snd last) = false.
Proof.
  intros Ha Hpre Henv Hkb last.
  pose proof (redraw_keeps_settings (snd (ConsoleGame.quit g)))
    as (Hact & _ & Hpost & _ & Hdelay & _).
  pose proof (redraw_frame (snd (ConsoleGame.quit g))) as (Hr & _).
  fold last in Hact, Hpost, Hdelay, Hr.
  split; [|split; [exact Hr | exact Hact]].
  simpl ConsoleGame.start_from. rewrite Ha, loop_body_stages.
  assert (Hb : ConsoleGame.before_update env g = (Return tt, snd (ConsoleGame.quit g))).
  { unfold ConsoleGame.before_update, ConsoleGame.bind, ConsoleGame.get,
      ConsoleGame.invoke.
    rewrite Hpre, Henv. simpl.
    unfold ConsoleGame.poll_key, ConsoleGame.bind, ConsoleGame.get,
      ConsoleGame.kbhit. simpl. by rewrite Hkb. }
  rewrite Hb.
  assert (Hu : ConsoleGame.update_stage it (snd (ConsoleGame.quit g)) = last)
    by reflexivity.
  rewrite Hu. destruct last as [[[]|e] g1] eqn:Hlast; [|done].
  simpl in Hact, Hpost, Hdelay.
  assert (Hafter : ConsoleGame.after_update env g1 = (Return tt, g1)).
  { unfold ConsoleGame.after_update, ConsoleGame.bind, ConsoleGame.get,
      ConsoleGame.invoke, ConsoleGame.sleep.
    rewrite Hpost. simpl. by rewrite Hdelay. }
  rewrite Hafter. destruct fuel; simpl; by rewrite Hact.
Qed.

Lemma quit_in_preupdate_still_redraws_witness :
  let env : ConsoleGame.hooks := fun _ _ _ => [ConsoleGame.call_quit] in
  exists g0 g1,
    new_game (blank 5 5) = Return g0 /\
    ConsoleGame.initialize true false (Some 0%nat) None None 0 g0 = (Return tt, g1) /\
    let g2 := ConsoleGame.set__pending_update false g1 in
    let last := ConsoleGame._update_and_display_board (snd (ConsoleGame.quit g2)) in
    ConsoleGame.start_from 1 env 0 g2 = Some last /\
    ConsoleGame.redraws (snd last) = S (ConsoleGame.redraws g2) /\
    ConsoleGame._active (snd last) = false.
Proof.
  intros env. eexists _, _.
  split; [vm_compute; reflexivity|].
  split; [vm_compute; reflexivity|].
  intros g2.
  exact (quit_in_preupdate_still_redraws env 0 0 g2 0%nat
           eq_refl eq_refl eq_refl eq_refl).
Defined.

(** X12. A negative delay is taken by [initialize] and felt at the end of
    the first turn only: on a game without hooks and with no key waiting,
    once the update stage has returned, [time.sleep] raises ValueError; the
    frame of that turn is already on the terminal, and [start] ends with
    that exception. *)
Theorem negative_delay_raises_after_the_frame
    (env : ConsoleGame.hooks) (fuel : nat) (it : Z) (g g1 : ConsoleGame.t) :
  ConsoleGame._active g = true ->
  ConsoleGame.preupdate g = None ->
  ConsoleGame.postupdate g = None ->
  ConsoleGame.keyboard g = [] ->
  (ConsoleGame.delay g < 0)%Q ->
  ConsoleGame.update_stage it g = (Return tt, g1) ->
  ConsoleGame.loop_body env it g = (Raise ValueError, g1) /\
  ConsoleGame.start_from (S fuel) env it g = Some (Raise ValueError, g1).
Proof.
  intros Ha Hpre Hpost Hkb Hd Hu.
  assert (Hloop : ConsoleGame.loop_body env it g = (Raise ValueError, g1)).
  { rewrite loop_body_stages.
    assert (Hb : ConsoleGame.before_update env g = (Return tt, g)).
    { unfold ConsoleGame.before_update, ConsoleGame.bind, ConsoleGame.get,
        ConsoleGame.invoke.
      rewrite Hpre. simpl.
      unfold ConsoleGame.poll_key, ConsoleGame.bind, ConsoleGame.get,
        ConsoleGame.kbhit. simpl. by rewrite Hkb. }
    rewrite Hb, Hu.
    pose proof (update_stage_keeps_settings it g) as (_ & _ & Hpost1 & _ & Hd1 & _).
    rewrite Hu in Hpost1, Hd1. simpl in Hpost1, Hd1.
    unfold ConsoleGame.after_update, ConsoleGame.bind, ConsoleGame.get,
      ConsoleGame.invoke, ConsoleGame.sleep.
    rewrite Hpost1, Hpost. simpl. rewrite Hd1.
    destruct (Qle_bool 0 (ConsoleGame.delay g)) eqn:Hle; [|done].
    apply Qle_bool_iff in Hle. by apply Qlt_not_le in Hd. }
  split; [exact Hloop|]. simpl. by rewrite Ha, Hloop.
Qed.

Lemma negative_delay_raises_after_the_frame_witness :
  let env : ConsoleGame.hooks := fun _ _ _ => [] in
  exists g0 g1 g2,
    new_game (blank 5 5) = Return g0 /\
    ConsoleGame.initialize false false None None None (-1) g0 = (Return tt, g1) /\
    ConsoleGame.update_stage 0 g1 = (Return tt, g2) /\
    ConsoleGame.redraws g2 = 1%nat /\
    ConsoleGame.start 1 env g1 = Some (Raise ValueError, g2).
Proof.
  intros env. eexists _, _, _.
  split; [vm_compute; reflexivity|].
  split; [vm_compute; reflexivity|].
  match goal with
  | |- ConsoleGame.update_stage 0 ?g = _ /\ _ => set (g1 := g)
  end.
  assert (Hu : exists g2, ConsoleGame.update_stage 0 g1 = (Return tt, g2) /\
                          ConsoleGame.redraws g2 = 1%nat).
  { eexists. split; [vm_compute; reflexivity | reflexivity]. }
  destruct Hu as (g2 & Hu & Hr).
  split; [vm_compute; reflexivity|].
  split; [reflexivity|].
  refine (proj2 (negative_delay_raises_after_the_frame env 0 0 g1 _
                   eq_refl eq_refl eq_refl eq_refl _ _)).
  - reflexivity.
  - vm_compute. reflexivity.
Defined.


(** ** What a redraw does to positions and to the store *)

Lemma clamped_in_bounds (bd : _Board.t) (p : _Player.t) :
  in_bounds bd p -> clamped bd p = p.
Proof.
  unfold in_bounds, col_in_bounds, row_in_bounds, col, row, maxCol, maxRow,
    clamped, ConsoleGame.index_error_protection.
  intros [Hc Hr].
  destruct (Z.gtb_spec (snd (_Player.pos p)) (_Board.x bd)); [lia|].
  destruct (Z.gtb_spec (fst (_Player.pos p)) (_Board.y bd)); [lia|].
  destruct (Z.ltb_spec (snd (_Player.pos p)) 0); [lia|].
  destruct (Z.ltb_spec (fst (_Player.pos p)) 0); [lia | done].
Qed.

Lemma clamped_same_bounds (bd bd' : _Board.t) (p : _Player.t) :
  _Board.x bd' = _Board.x bd -> _Board.y bd' = _Board.y bd ->
  clamped bd' p = clamped bd p.
Proof.
  intros Hx Hy. unfold clamped, ConsoleGame.index_error_protection.
  by rewrite Hx, Hy.
Qed.

Lemma clamped_twice_in_bounds (bd : _Board.t) (p : _Player.t) :
  0 <= _Board.x bd -> 0 <= _Board.y bd ->
  in_bounds bd (clamped bd (clamped bd p)).
Proof.
  intros Hx Hy. destruct p as [ch [c r] kl kr ku kd co ac].
  unfold in_bounds, col_in_bounds, row_in_bounds, col, row, maxCol, maxRow,
    clamped, ConsoleGame.index_error_protection.
  simpl.
  destruct (Z.gtb_spec r (_Board.x bd));
    [|destruct (Z.gtb_spec c (_Board.y bd));
      [|destruct (Z.ltb_spec r 0); [|destruct (Z.ltb_spec c 0)]]];
    simpl;
    repeat (match goal with
            | |- context [?a >? ?b] => destruct (Z.gtb_spec a b)
            | |- context [?a <? ?b] => destruct (Z.ltb_spec a b)
            end; simpl in *); lia.
Qed.

(** The board a redraw leaves has the bounds it found. *)
Lemma redraw_keeps_bounds (g : ConsoleGame.t) :
  let g' := snd (ConsoleGame._update_and_display_board g) in
  _Board.x (ConsoleGame.board g') = _Board.x (ConsoleGame.board g) /\
  _Board.y (ConsoleGame.board g') = _Board.y (ConsoleGame.board g) /\
  _Board._copy (ConsoleGame.board g') = _Board._copy (ConsoleGame.board g).
Proof.
  unfold ConsoleGame._update_and_display_board.
  destruct (_Board._original _ _) as [[w h1]|e]; simpl; [|done].
  destruct (ConsoleGame.display_players _ h1 _) as [[r h2] ps].
  destruct r as [[]|e]; [destruct (_Board.__str__ h2 _) as [s|e]|]; done.
Qed.

(** X13. The clamp chain corrects one coordinate at a time, and two passes
    are enough for any position: when two redraws in a row return, every
    player is stored within [0 <= col <= maxCol] and [0 <= row <= maxRow]
    after the second, wherever it was before the first, and a third redraw
    that returns moves no player. *)
Theorem two_redraws_bring_every_player_in_bounds
    (g g1 g2 : ConsoleGame.t) :
  0 <= maxRow (ConsoleGame.board g) -> 0 <= maxCol (ConsoleGame.board g) ->
  ConsoleGame._update_and_display_board g = (Return tt, g1) ->
  ConsoleGame._update_and_display_board g1 = (Return tt, g2) ->
  Forall (in_bounds (ConsoleGame.board g2)) (ConsoleGame.Players g2) /\
  length (ConsoleGame.Players g2) = length (ConsoleGame.Players g) /\
  forall g3,
    ConsoleGame._update_and_display_board g2 = (Return tt, g3) ->
    ConsoleGame.Players g3 = ConsoleGame.Players g2.
Proof.
  unfold maxRow, maxCol. intros Hx Hy H1 H2.
  pose proof (redraw_keeps_bounds g) as (Hx1 & Hy1 & _).
  pose proof (redraw_keeps_bounds g1) as (Hx2 & Hy2 & _).
  rewrite H1 in Hx1, Hy1. rewrite H2 in Hx2, Hy2. simpl in *.
  pose proof (redraw_returned_players g g1 H1) as Hp1.
  pose proof (redraw_returned_players g1 g2 H2) as Hp2.
  assert (Hin : Forall (in_bounds (ConsoleGame.board g2)) (ConsoleGame.Players g2)).
  { rewrite Hp2, Hp1. apply Forall_forall. intros q Hq.
    apply list_elem_of_fmap in Hq as (q1 & -> & Hq1).
    apply list_elem_of_fmap in Hq1 as (q0 & -> & _).
    rewrite (clamped_same_bounds (ConsoleGame.board g) (ConsoleGame.board g1))
      by done.
    unfold in_bounds, col_in_bounds, row_in_bounds, maxCol, maxRow.
    rewrite Hx2, Hy2, Hx1, Hy1.
    by apply clamped_twice_in_bounds. }
  split; [exact Hin|]. split.
  { by rewrite Hp2, Hp1, !length_map. }
  intros g3 H3. rewrite (redraw_returned_players g2 g3 H3).
  rewrite <- (map_id (ConsoleGame.Players g2)) at 2.
  apply map_ext_in. intros q Hq. apply clamped_in_bounds.
  rewrite Forall_forall in Hin. apply Hin. by apply list_elem_of_In.
Qed.

Lemma two_redraws_bring_every_player_in_bounds_witness :
  exists g0 g1 g2 g3,
    new_game (blank 5 5) = Return g0 /\
    add_player_by_default "@" (-1, 7) g0 = (Return 0%nat, g1) /\
    ConsoleGame._update_and_display_board g1 = (Return tt, g2) /\
    ConsoleGame._update_and_display_board g2 = (Return tt, g3) /\
    map _Player.pos (ConsoleGame.Players g2) = [(-1, 4)] /\
    map _Player.pos (ConsoleGame.Players g3) = [(0, 4)] /\
    Forall (in_bounds (ConsoleGame.board g3)) (ConsoleGame.Players g3).
Proof.
  eexists _, _, _, _.
  split; [vm_compute; reflexivity|].
  split; [vm_compute; reflexivity|].
  match goal with
  | |- ConsoleGame._update_and_display_board ?g = _ /\ _ => set (g1 := g)
  end.
  split; [vm_compute; reflexivity|].
  match goal with
  | |- ConsoleGame._update_and_display_board ?g = _ /\ _ => set (g2 := g)
  end.
  split; [vm_compute; reflexivity|].
  split; [reflexivity|]. split; [reflexivity|].
  refine (proj1 (two_redraws_bring_every_player_in_bounds g1 g2 _ _ _ _ _)).
  - unfold maxRow. simpl. lia.
  - unfold maxCol. simpl. lia.
  - vm_compute. reflexivity.
  - vm_compute. reflexivity.
Defined.

(** A placement that returns has written into one row of the grid and
    nowhere else. *)
Lemma place_frame (h h' : heap) (g : loc) (px py : Z) (c : string) :
  ConsoleGame.place h g px py c = Return h' ->
  length h' = length h /\ h' !! g = h !! g /\
  forall l, l ∉ rows_of h g -> h' !! l = h !! l.
Proof.
  unfold ConsoleGame.place, rows_of.
  destruct (h !! g) as [[?|rs]|] eqn:Hg; try done.
  destruct (py_index (length rs) px) as [i|]; [|done].
  destruct (rs !! i) as [r|] eqn:Hr; [|done].
  destruct (h !! r) as [[cells|?]|] eqn:Hcells; try done.
  destruct (py_index (length cells) py) as [j|]; [|done].
  intros [= <-]. split; [apply length_insert|]. split.
  - rewrite list_lookup_insert_ne; [done | congruence].
  - intros l Hl. apply list_lookup_insert_ne. intros ->.
    apply Hl. by eapply list_elem_of_lookup_2.
Qed.

Lemma display_players_frame (bd : _Board.t) (ps : list _Player.t) :
  forall h,
    let h' := snd (fst (ConsoleGame.display_players bd h ps)) in
    length h' = length h /\ h' !! _Board.board bd = h !! _Board.board bd /\
    forall l, l ∉ rows_of h (_Board.board bd) -> h' !! l = h !! l.
Proof.
  induction ps as [|p ps IH]; intros h; simpl; [done|].
  destruct (ConsoleGame.index_error_protection bd p) as [[p' px] py].
  destruct (ConsoleGame.place h (_Board.board bd) px py (_Player.char p'))
    as [h1|e] eqn:Hplace; [|done].
  destruct (place_frame _ _ _ _ _ _ Hplace) as (Hlen & Hg & Hout).
  specialize (IH h1).
  destruct (ConsoleGame.display_players bd h1 ps) as [[r h2] ps2].
  simpl in *. destruct IH as (Hlen2 & Hg2 & Hout2).
  assert (Hrows : rows_of h1 (_Board.board bd) = rows_of h (_Board.board bd))
    by (unfold rows_of; by rewrite Hg).
  split; [congruence|]. split; [congruence|].
  intros l Hl. rewrite Hout2 by (by rewrite Hrows). by apply Hout.
Qed.

(** The store below its old end, and the address of the baseline, are the
    same after a redraw as before. *)
Lemma redraw_keeps_store (g : ConsoleGame.t) (v : list (list string)) :
  baseline g v ->
  let g' := snd (ConsoleGame._update_and_display_board g) in
  (forall l, (l < length (ConsoleGame.store g))%nat ->
             ConsoleGame.store g' !! l = ConsoleGame.store g !! l) /\
  (length (ConsoleGame.store g) <= length (ConsoleGame.store g'))%nat.
Proof.
  intros Hv. unfold baseline in *. cbv zeta.
  unfold ConsoleGame._update_and_display_board, _Board._original.
  cbn [ConsoleGame.store ConsoleGame.board ConsoleGame.set_console].
  destruct (deepcopy_spec _ _ v Hv) as (w & ext & -> & Hw & Hfresh).
  cbn [ConsoleGame.Players ConsoleGame.set_console].
  pose proof (display_players_frame
                (_Board.set_board w (ConsoleGame.board g))
                (ConsoleGame.Players g) (ConsoleGame.store g ++ ext))
    as (Hlen & Hgrid & Hout).
  destruct (ConsoleGame.display_players _ _ _) as [[r h2] ps]. simpl in *.
  assert (Hres : (forall l, (l < length (ConsoleGame.store g))%nat ->
                    h2 !! l = ConsoleGame.store g !! l) /\
                 (length (ConsoleGame.store g) <= length h2)%nat).
  { split.
    - intros l Hl. rewrite Hout.
      + by apply lookup_app_l.
      + intros Hin. unfold rows_of in Hin.
        destruct ((ConsoleGame.store g ++ ext) !! w) as [[?|rs]|] eqn:Hw';
          try (by apply not_elem_of_nil in Hin).
        assert ((length (ConsoleGame.store g) <= l)%nat); [|lia].
        apply Hfresh. right. by exists rs.
    - rewrite Hlen, length_app. lia. }
  destruct r as [[]|e]; [destruct (_Board.__str__ h2 _) as [s|e]|];
    simpl; by destruct Hres.
Qed.

Lemma redraw_keeps_baseline (v : list (list string)) :
  preserves (fun g => baseline g v) ConsoleGame._update_and_display_board.
Proof.
  intros g Hv. pose proof (redraw_keeps_store g v Hv) as (Hsame & _).
  pose proof (redraw_keeps_bounds g) as (_ & _ & Hcopy).
  unfold baseline in *. rewrite Hcopy.
  by apply (read_grid_agree (ConsoleGame.store g)).
Qed.

(** X14. A redraw writes into list objects it has just made and into no
    other: on a game whose baseline is a well-typed grid, every object of
    the store is after the redraw what it was before, whether the redraw
    returns or raises. So the baseline holds the same value, and so does
    every grid made earlier. *)
Theorem redraw_writes_new_objects_only
    (g : ConsoleGame.t) (v : list (list string)) :
  baseline g v ->
  let g' := snd (ConsoleGame._update_and_display_board g) in
  (forall l, (l < length (ConsoleGame.store g))%nat ->
             ConsoleGame.store g' !! l = ConsoleGame.store g !! l) /\
  (length (ConsoleGame.store g) <= length (ConsoleGame.store g'))%nat /\
  baseline g' v /\
  forall b u, read_grid (ConsoleGame.store g) b = Some u ->
              read_grid (ConsoleGame.store g') b = Some u.
Proof.
  intros Hv g'.
  destruct (redraw_keeps_store g v Hv) as (Hsame & Hlen).
  split; [exact Hsame|]. split; [exact Hlen|]. split.
  - by apply redraw_keeps_baseline.
  - intros b u Hu. by apply (read_grid_agree (ConsoleGame.store g)).
Qed.

Lemma redraw_writes_new_objects_only_witness :
  exists g0 g1,
    new_game (blank 5 5) = Return g0 /\
    add_player_by_default "@" (2, 2) g0 = (Return 0%nat, g1) /\
    baseline g1 (blank 5 5) /\
    baseline (snd (ConsoleGame._update_and_display_board g1)) (blank 5 5).
Proof.
  eexists _, _.
  split; [vm_compute; reflexivity|].
  split; [vm_compute; reflexivity|].
  match goal with |- baseline ?g _ /\ _ => set (g1 := g) end.
  assert (Hb : baseline g1 (blank 5 5)) by reflexivity.
  split; [exact Hb|].
  exact (proj1 (proj2 (proj2 (redraw_writes_new_objects_only g1 _ Hb)))).
Defined.

Lemma run_call_baseline (v : list (list string)) (c : ConsoleGame.call) :
  preserves (fun g => baseline g v) (ConsoleGame.run_call c).
Proof. intros g HP. unfold baseline in *. destruct c; open_call; done. Qed.

Lemma update_stage_baseline (v : list (list string)) (it : Z) :
  preserves (fun g => baseline g v) (ConsoleGame.update_stage it).
Proof.
  intros g Hv. pose proof (redraw_keeps_baseline v g Hv) as Hr.
  unfold ConsoleGame.update_stage, ConsoleGame.bind.
  destruct (ConsoleGame.smart_updating g).
  - destruct (ConsoleGame._pending_update g); [|done].
    by destruct (ConsoleGame._update_and_display_board g) as [[[]|e] g'].
  - destruct (ConsoleGame.interval_updating g); [|done].
    destruct (ConsoleGame.interval g =? 0); [done|].
    by destruct (it mod ConsoleGame.interval g =? 0).
Qed.

Lemma loop_body_baseline (env : ConsoleGame.hooks) (v : list (list string)) (it : Z) :
  preserves (fun g => baseline g v) (ConsoleGame.loop_body env it).
Proof.
  unfold ConsoleGame.loop_body.
  apply preserves_bind.
  { apply (before_update_preserves (fun _ => True));
      [intros c _; apply run_call_baseline | intros; by apply Forall_true | done]. }
  intros _. apply preserves_bind; [apply update_stage_baseline|]. intros _.
  apply (after_update_preserves (fun _ => True));
    [intros c _; apply run_call_baseline | intros; by apply Forall_true].
Qed.

Lemma _original_as_string_spec (h : heap) (B : _Board.t)
    (r0 : list string) (v : list (list string)) :
  read_grid h (_Board._copy B) = Some (r0 :: v) ->
  _Board._original_as_string h B = Return (_Board.render (r0 :: v)).
Proof.
  intros Hv. unfold _Board._original_as_string, _Board._original.
  destruct (deepcopy_spec h _ _ Hv) as (w & ext & -> & Hw & _).
  destruct (board_init_spec _ w r0 v Hw) as (c2 & ext2 & -> & _ & _).
  unfold _Board.__str__. simpl.
  rewrite (read_grid_agree (h ++ ext) ((h ++ ext) ++ ext2) w _ Hw); [done|].
  intros l Hl. by apply lookup_app_l.
Qed.

(** X15. Nothing the loop does reaches the baseline: through every turn,
    whatever the hooks call and whether the turn returns or raises, the
    baseline holds the value it held, and so it does in the state [start]
    ends in; [_original_as_string] gives there the text it gave at the
    start. *)
Theorem the_loop_keeps_the_baseline
    (env : ConsoleGame.hooks) (r0 : list string) (v : list (list string)) :
  (forall it, preserves (fun g => baseline g (r0 :: v)) (ConsoleGame.loop_body env it)) /\
  forall fuel it g res g',
    baseline g (r0 :: v) ->
    ConsoleGame.start_from fuel env it g = Some (res, g') ->
    baseline g' (r0 :: v) /\
    _Board._original_as_string (ConsoleGame.store g') (ConsoleGame.board g') =
      _Board._original_as_string (ConsoleGame.store g) (ConsoleGame.board g) /\
    _Board._original_as_string (ConsoleGame.store g') (ConsoleGame.board g') =
      Return (_Board.render (r0 :: v)).
Proof.
  split; [intros it; apply loop_body_baseline|].
  assert (Hrun : forall fuel it g res g',
            baseline g (r0 :: v) ->
            ConsoleGame.start_from fuel env it g = Some (res, g') ->
            baseline g' (r0 :: v)).
  { induction fuel as [|fuel IH]; intros it g res g' Hv; simpl;
      destruct (ConsoleGame._active g); try done;
      try (by intros [= <- <-]).
    pose proof (loop_body_baseline env (r0 :: v) it g Hv) as Hv1.
    destruct (ConsoleGame.loop_body env it g) as [[[]|e] g1]; simpl in Hv1.
    - by apply IH.
    - by intros [= <- <-]. }
  intros fuel it g res g' Hv Hstart.
  pose proof (Hrun fuel it g res g' Hv Hstart) as Hv'.
  split; [exact Hv'|].
  by rewrite !(_original_as_string_spec _ _ r0 v).
Qed.

Lemma the_loop_keeps_the_baseline_witness :
  let env : ConsoleGame.hooks := fun _ _ _ => [ConsoleGame.call_quit] in
  exists g0 g1 g2 res g',
    new_game (blank 5 5) = Return g0 /\
    add_player_by_default "@" (2, 2) g0 = (Return 0%nat, g1) /\
    ConsoleGame.initialize false false None (Some 0%nat) None 0 g1 = (Return tt, g2) /\
    ConsoleGame.start 2 env g2 = Some (res, g') /\
    baseline g' (blank 5 5) /\
    _Board._original_as_string (ConsoleGame.store g') (ConsoleGame.board g') =
      Return (_Board.render (blank 5 5)).
Proof.
  intros env. eexists _, _, _, _, _.
  split; [vm_compute; reflexivity|].
  split; [vm_compute; reflexivity|].
  split; [vm_compute; reflexivity|].
  match goal with |- ConsoleGame.start 2 env ?g = _ /\ _ => set (g2 := g) end.
  split; [vm_compute; reflexivity|].
  match goal with |- baseline ?g _ /\ _ => set (g' := g) end.
  destruct (proj2 (the_loop_keeps_the_baseline env (replicate 5 " "%string)
                     (replicate 4 (replicate 5 " "%string)))
              2%nat 0 g2 (Return tt) g') as (Hb & _ & Hs).
  - reflexivity.
  - vm_compute. reflexivity.
  - split; [exact Hb | exact Hs].
Defined.


(** ** What a redraw shows *)

Lemma new_rows_spec (v : list (list string)) :
  forall h, new_rows h v = (seq (length h) (length v), h ++ (Row <$> v)).
Proof.
  induction v as [|cells v IH]; intros h; simpl.
  - by rewrite app_nil_r.
  - unfold alloc. rewrite IH, length_app. simpl.
    rewrite Nat.add_1_r, <- app_assoc. done.
Qed.

(** Copying rows that are all different objects, none of them in the memo
    table: every row gets a new object, in order. *)
Lemma deepcopy_rows_unshared (rs : list loc) :
  forall (h : heap) (memo : list (loc * loc)) (v : list (list string)),
    NoDup rs -> (forall r, r ∈ rs -> memo_get memo r = None) ->
    read_rows h rs = Some v ->
    exists memo',
      deepcopy_rows h memo rs =
        Return (seq (length h) (length rs), memo', h ++ (Row <$> v)).
Proof.
  induction rs as [|r rs IH]; intros h memo v Hnd Hmemo; simpl.
  - intros [= <-]. exists memo. by rewrite app_nil_r.
  - destruct (h !! r) as [[cells|?]|] eqn:Hr; try done.
    destruct (read_rows h rs) as [v'|] eqn:Hv; try done.
    intros [= <-]. apply NoDup_cons in Hnd as [Hnotin Hnd].
    rewrite (Hmemo r) by (by left). unfold alloc.
    destruct (IH (h ++ [Row cells]) ((r, length h) :: memo) v' Hnd) as (memo' & ->).
    + intros r2 Hr2. simpl. destruct (Nat.eqb_spec r r2) as [->|_]; [done|].
      apply Hmemo. by right.
    + by apply read_rows_extend.
    + exists memo'. rewrite length_app. simpl.
      rewrite Nat.add_1_r, <- app_assoc. done.
Qed.

Lemma deepcopy_unshared (h : heap) (c : loc) (rs : list loc)
    (v : list (list string)) :
  h !! c = Some (Grid rs) -> NoDup rs -> read_rows h rs = Some v ->
  deepcopy h c = Return ((length h + length v)%nat, canvas h v).
Proof.
  intros Hc Hnd Hv. unfold deepcopy. rewrite Hc.
  destruct (deepcopy_rows_unshared rs h [] v Hnd) as (memo' & ->);
    [done | done |].
  unfold alloc, canvas. rewrite length_app, length_fmap.
  rewrite (read_rows_length h rs v Hv), <- app_assoc. done.
Qed.

Lemma canvas_grid (h : heap) (v : list (list string)) :
  canvas h v !! (length h + length v)%nat =
    Some (Grid (seq (length h) (length v))).
Proof.
  unfold canvas. rewrite app_assoc.
  replace (length h + length v)%nat with (length (h ++ (Row <$> v)))
    by (by rewrite length_app, length_fmap).
  apply lookup_alloc.
Qed.

Lemma canvas_row (h : heap) (v : list (list string)) (i : nat)
    (cells : list string) :
  v !! i = Some cells -> canvas h v !! (length h + i)%nat = Some (Row cells).
Proof.
  intros Hi. unfold canvas. rewrite lookup_app_r by lia.
  replace (length h + i - length h)%nat with i by lia.
  apply lookup_app_l_Some. by rewrite list_lookup_fmap, Hi.
Qed.

Lemma canvas_read (h : heap) (v : list (list string)) :
  read_grid (canvas h v) (length h + length v)%nat = Some v.
Proof.
  unfold read_grid. rewrite canvas_grid.
  assert (Hgen : forall k w, (forall i cells, w !! i = Some cells ->
                                  v !! (k + i)%nat = Some cells) ->
            read_rows (canvas h v) (seq (length h + k) (length w)) = Some w).
  { intros k w. revert k. induction w as [|cells w IH]; intros k Hw; simpl; [done|].
    rewrite (canvas_row h v k cells) by (rewrite <- (Hw 0%nat cells eq_refl); f_equal; lia).
    replace (S (length h + k)) with (length h + S k)%nat by lia.
    rewrite IH; [done|]. intros i c Hi.
    replace (S k + i)%nat with (k + S i)%nat by lia. by apply Hw. }
  specialize (Hgen 0%nat v). rewrite Nat.add_0_r in Hgen. by apply Hgen.
Qed.

(** Placing a glyph on a canvas, inside the grid. *)
Lemma place_on_canvas (h : heap) (v : list (list string)) (px py : Z)
    (c : string) (cells : list string) :
  0 <= px -> v !! Z.to_nat px = Some cells ->
  0 <= py < Z.of_nat (length cells) ->
  ConsoleGame.place (canvas h v) (length h + length v)%nat px py c =
    Return (canvas h (<[Z.to_nat px := <[Z.to_nat py := c]> cells]> v)).
Proof.
  intros Hpx Hrow Hpy. unfold ConsoleGame.place. rewrite canvas_grid.
  pose proof (lookup_lt_Some _ _ _ Hrow) as Hlt.
  destruct (py_index_in_range (length (seq (length h) (length v))) px)
    as [-> _]; [rewrite length_seq; lia|].
  rewrite lookup_seq_lt by done.
  rewrite (canvas_row h v _ cells Hrow).
  destruct (py_index_in_range (length cells) py) as [-> _]; [done|].
  f_equal. unfold canvas.
  rewrite insert_app_r, insert_app_l by (by rewrite length_fmap).
  by rewrite list_fmap_insert, length_insert.
Qed.

Section Paint.

Variable bd : _Board.t.
Variables H W : nat.
Hypothesis Hx : _Board.x bd = Z.of_nat H - 1.
Hypothesis Hy : _Board.y bd = Z.of_nat W - 1.
Hypothesis HH : (1 <= H)%nat.
Hypothesis HW : (1 <= W)%nat.

Lemma paint_one_shape (v : list (list string)) (p : _Player.t) :
  length v = H -> Forall (fun cells => length cells = W) v ->
  length (paint_one v p) = H /\
  Forall (fun cells => length cells = W) (paint_one v p).
Proof.
  intros Hlen Hall. unfold paint_one.
  destruct (v !! Z.to_nat (row p)) as [cells|] eqn:Hrow; [|done].
  split; [by rewrite length_insert|].
  apply Forall_insert; [done|]. rewrite length_insert.
  rewrite Forall_forall in Hall. apply Hall. by eapply list_elem_of_lookup_2.
Qed.

(** The loop over the players on a canvas of [H] by [W] cells, all players
    being out of bounds on one axis at most: it returns, and the canvas
    holds the grid painted with the clamped players. *)
Lemma display_players_on_canvas (h : heap) (ps : list _Player.t) :
  forall v,
    length v = H -> Forall (fun cells => length cells = W) v ->
    _Board.board bd = (length h + H)%nat ->
    Forall (one_axis_at_most bd) ps ->
    ConsoleGame.display_players bd (canvas h v) ps =
      (Return tt, canvas h (paint v (map (clamped bd) ps)), map (clamped bd) ps).
Proof.
  induction ps as [|p ps IH]; intros v Hlen Hall Hb Hone; [done|].
  apply Forall_cons in Hone as [Hp Hone].
  destruct (index_error_protection_one_axis bd p) as (px & py & Hiep & Hpos & Hpx & Hpy);
    [lia | lia | done |].
  assert (Hrow : exists cells, v !! Z.to_nat px = Some cells /\ length cells = W).
  { destruct (lookup_lt_is_Some_2 v (Z.to_nat px)) as [cells Hc]; [lia|].
    exists cells. split; [done|]. rewrite Forall_forall in Hall.
    apply Hall. by eapply list_elem_of_lookup_2. }
  destruct Hrow as (cells & Hcells & Hw).
  assert (Hpaint : paint_one v (clamped bd p) =
                   <[Z.to_nat px := <[Z.to_nat py := _Player.char (clamped bd p)]> cells]> v).
  { unfold paint_one, row, col. rewrite Hpos. simpl. by rewrite Hcells. }
  simpl ConsoleGame.display_players. rewrite Hiep, Hb, <- Hlen.
  rewrite (place_on_canvas h v px py _ cells) by (done || lia).
  rewrite <- Hpaint.
  destruct (paint_one_shape v (clamped bd p) Hlen Hall) as (Hlen' & Hall').
  rewrite <- Hlen' in Hb.
  pose proof (IH (paint_one v (clamped bd p)) Hlen' Hall') as Hrest.
  rewrite Hlen' in Hb. rewrite (Hrest Hb Hone). done.
Qed.

End Paint.


Lemma paint_shape (H W : nat) (ps : list _Player.t) :
  forall v,
    length v = H -> Forall (fun cells => length cells = W) v ->
    length (paint v ps) = H /\ Forall (fun cells => length cells = W) (paint v ps).
Proof.
  induction ps as [|p ps IH]; intros v Hlen Hall; [done|].
  destruct (paint_one_shape H W v p Hlen Hall) as (Hlen' & Hall').
  by apply IH.
Qed.

Lemma cell_paint_one_other (v : list (list string)) (q : _Player.t) (i j : nat) :
  stands_on q <> (i, j) -> cell (paint_one v q) i j = cell v i j.
Proof.
  unfold stands_on, paint_one, cell. intros Hne.
  destruct (v !! Z.to_nat (row q)) as [cells|] eqn:Hrow; [|done].
  destruct (decide (Z.to_nat (row q) = i)) as [<-|Hi].
  - rewrite list_lookup_insert_eq by (by eapply lookup_lt_Some).
    rewrite Hrow. apply list_lookup_insert_ne. congruence.
  - by rewrite list_lookup_insert_ne.
Qed.

Lemma cell_paint_one_self (v : list (list string)) (p : _Player.t)
    (cells : list string) :
  v !! Z.to_nat (row p) = Some cells ->
  (Z.to_nat (col p) < length cells)%nat ->
  cell (paint_one v p) (Z.to_nat (row p)) (Z.to_nat (col p)) =
    Some (_Player.char p).
Proof.
  intros Hrow Hcol. unfold paint_one, cell. rewrite Hrow.
  rewrite list_lookup_insert_eq by (by eapply lookup_lt_Some).
  by apply list_lookup_insert_eq.
Qed.

Lemma cell_paint_others (ps : list _Player.t) (i j : nat) :
  forall v,
    Forall (fun q => stands_on q <> (i, j)) ps ->
    cell (paint v ps) i j = cell v i j.
Proof.
  induction ps as [|q ps IH]; intros v Hall; [done|].
  apply Forall_cons in Hall as [Hq Hall].
  unfold paint in *. simpl. rewrite (IH _ Hall). by apply cell_paint_one_other.
Qed.

(** The whole redraw on a board of [H] by [W] cells whose baseline shares
    no row, all players being out of bounds on one axis at most. *)
Lemma redraw_on_unshared_board
    (g : ConsoleGame.t) (H W : nat) (v : list (list string)) :
  unshared_baseline g v ->
  length v = H -> Forall (fun cells => length cells = W) v ->
  (1 <= H)%nat -> (1 <= W)%nat ->
  _Board.x (ConsoleGame.board g) = Z.of_nat H - 1 ->
  _Board.y (ConsoleGame.board g) = Z.of_nat W - 1 ->
  Forall (one_axis_at_most (ConsoleGame.board g)) (ConsoleGame.Players g) ->
  let h := ConsoleGame.store g in
  let ps := map (clamped (ConsoleGame.board g)) (ConsoleGame.Players g) in
  let bd := _Board.set_board (length h + H)%nat (ConsoleGame.board g) in
  ConsoleGame._update_and_display_board g =
    (Return tt,
     ConsoleGame.set_console
       (ConsoleGame.console g ++ [Clear; Writeline (_Board.render (paint v ps))])
       (ConsoleGame.set_Players ps
          (ConsoleGame.set_store (canvas h (paint v ps))
             (ConsoleGame.set_board bd g)))).
Proof.
  intros (rs & Hc & Hnd & Hv) Hlen Hall HH HW Hx Hy Hone h ps bd.
  unfold ConsoleGame._update_and_display_board, _Board._original.
  cbn [ConsoleGame.store ConsoleGame.board ConsoleGame.set_console
       ConsoleGame.Players].
  rewrite (deepcopy_unshared _ _ rs v Hc Hnd Hv), Hlen. fold h bd.
  rewrite (display_players_on_canvas bd H W Hx Hy HH HW h
             (ConsoleGame.Players g) v Hlen Hall eq_refl Hone).
  change (map (clamped bd) (ConsoleGame.Players g)) with ps.
  destruct (paint_shape H W ps v Hlen Hall) as (Hlen' & _).
  assert (Hread : read_grid (canvas h (paint v ps)) (length h + H)%nat =
                  Some (paint v ps)).
  { rewrite <- Hlen' at 1. apply canvas_read. }
  unfold _Board.__str__. cbn [_Board.board _Board.set_board bd].
  rewrite Hread.
  cbn [ConsoleGame.console ConsoleGame.set_console ConsoleGame.set_Players
       ConsoleGame.set_store ConsoleGame.set_board].
  by rewrite <- app_assoc.
Qed.

(** X16. The frame. On a board of [H] by [W] cells whose baseline shares no
    row object, with every player out of bounds on one axis at most, the
    redraw returns; it has cleared the terminal and written one text, the
    baseline with the glyph of each clamped player put at its position in
    the order of the list; that painted grid is the working grid of the
    board; and the baseline is as it was, ready for the next redraw. *)
Theorem redraw_shows_the_players_on_the_baseline
    (g : ConsoleGame.t) (H W : nat) (v : list (list string)) :
  unshared_baseline g v ->
  length v = H -> Forall (fun cells => length cells = W) v ->
  (1 <= H)%nat -> (1 <= W)%nat ->
  _Board.x (ConsoleGame.board g) = Z.of_nat H - 1 ->
  _Board.y (ConsoleGame.board g) = Z.of_nat W - 1 ->
  Forall (one_axis_at_most (ConsoleGame.board g)) (ConsoleGame.Players g) ->
  exists g',
    ConsoleGame._update_and_display_board g = (Return tt, g') /\
    ConsoleGame.Players g' =
      map (clamped (ConsoleGame.board g)) (ConsoleGame.Players g) /\
    ConsoleGame.console g' =
      ConsoleGame.console g ++
        [Clear; Writeline (_Board.render (paint v (ConsoleGame.Players g')))] /\
    read_grid (ConsoleGame.store g') (_Board.board (ConsoleGame.board g')) =
      Some (paint v (ConsoleGame.Players g')) /\
    unshared_baseline g' v.
Proof.
  intros Hun Hlen Hall HH HW Hx Hy Hone.
  pose proof (redraw_on_unshared_board g H W v Hun Hlen Hall HH HW Hx Hy Hone)
    as Hredraw.
  cbv zeta in Hredraw. eexists. split; [exact Hredraw|].
  cbn [ConsoleGame.Players ConsoleGame.console ConsoleGame.store
       ConsoleGame.board ConsoleGame.set_console ConsoleGame.set_Players
       ConsoleGame.set_store ConsoleGame.set_board _Board.board
       _Board.set_board _Board._copy].
  split; [done|]. split; [done|].
  set (ps := map _ _).
  destruct (paint_shape H W ps v Hlen Hall) as (Hlen' & _).
  split.
  { rewrite <- Hlen' at 1. apply canvas_read. }
  destruct Hun as (rs & Hc & Hnd & Hv). exists rs.
  cbn [ConsoleGame.Players ConsoleGame.console ConsoleGame.store
       ConsoleGame.board ConsoleGame.set_console ConsoleGame.set_Players
       ConsoleGame.set_store ConsoleGame.set_board _Board.board
       _Board.set_board _Board._copy].
  unfold canvas. split; [by apply lookup_app_l_Some|].
  split; [done | by apply read_rows_extend].
Qed.

Lemma redraw_shows_the_players_on_the_baseline_witness :
  exists g0 g1 g2 g',
    new_game (blank 3 4) = Return g0 /\
    add_player_by_default "@" (1, 2) g0 = (Return 0%nat, g1) /\
    add_player_by_default "#" (9, 0) g1 = (Return 1%nat, g2) /\
    ConsoleGame._update_and_display_board g2 = (Return tt, g') /\
    map _Player.pos (ConsoleGame.Players g') = [(1, 2); (3, 0)] /\
    read_grid (ConsoleGame.store g') (_Board.board (ConsoleGame.board g')) =
      Some [[" "; " "; " "; "#"]; [" "; " "; " "; " "]; [" "; "@"; " "; " "]]%string.
Proof.
  eexists _, _, _, _.
  split; [vm_compute; reflexivity|].
  split; [vm_compute; reflexivity|].
  split; [vm_compute; reflexivity|].
  match goal with
  | |- ConsoleGame._update_and_display_board ?g = _ /\ _ => set (g2 := g)
  end.
  destruct (redraw_shows_the_players_on_the_baseline g2 3 4 (blank 3 4))
    as (g' & Hredraw & Hps & _ & Hframe & _).
  - exists [4; 5; 6]%nat. split; [reflexivity|].
    split; [|reflexivity].
    repeat (constructor; [rewrite list_elem_of_In; simpl; lia|]). constructor.
  - reflexivity.
  - repeat constructor.
  - lia.
  - lia.
  - reflexivity.
  - reflexivity.
  - repeat (constructor; [unfold one_axis_at_most, col_in_bounds, row_in_bounds,
                            col, row, maxCol, maxRow; simpl; lia|]).
    constructor.
  - split; [vm_compute; reflexivity|].
    split; [reflexivity | reflexivity].
Defined.

(** X17. Who is seen where. In the frame of such a redraw a cell on which no
    player stands shows the baseline, and a cell on which players stand
    shows the glyph of the one that comes last in the list of players: a
    player is seen at its position unless a player added after it stands on
    the same cell. *)
Theorem the_frame_shows_the_last_player_of_a_cell
    (g : ConsoleGame.t) (H W : nat) (v : list (list string)) :
  unshared_baseline g v ->
  length v = H -> Forall (fun cells => length cells = W) v ->
  (1 <= H)%nat -> (1 <= W)%nat ->
  _Board.x (ConsoleGame.board g) = Z.of_nat H - 1 ->
  _Board.y (ConsoleGame.board g) = Z.of_nat W - 1 ->
  Forall (one_axis_at_most (ConsoleGame.board g)) (ConsoleGame.Players g) ->
  exists g' frame,
    ConsoleGame._update_and_display_board g = (Return tt, g') /\
    read_grid (ConsoleGame.store g') (_Board.board (ConsoleGame.board g')) =
      Some frame /\
    (forall i j,
       Forall (fun q => stands_on q <> (i, j)) (ConsoleGame.Players g') ->
       cell frame i j = cell v i j) /\
    (forall ps1 p ps2,
       ConsoleGame.Players g' = ps1 ++ p :: ps2 ->
       Forall (fun q => stands_on q <> stands_on p) ps2 ->
       cell frame (Z.to_nat (row p)) (Z.to_nat (col p)) = Some (_Player.char p)).
Proof.
  intros Hun Hlen Hall HH HW Hx Hy Hone.
  pose proof (redraw_on_unshared_board g H W v Hun Hlen Hall HH HW Hx Hy Hone)
    as Hredraw.
  cbv zeta in Hredraw. set (ps := map _ _) in Hredraw.
  destruct (paint_shape H W ps v Hlen Hall) as (Hlen' & _).
  eexists _, (paint v ps). split; [exact Hredraw|].
  cbn [ConsoleGame.Players ConsoleGame.store ConsoleGame.board
       ConsoleGame.set_console ConsoleGame.set_Players ConsoleGame.set_store
       ConsoleGame.set_board _Board.board _Board.set_board].
  split; [rewrite <- Hlen' at 1; apply canvas_read|].
  split; [intros i j Hfree; by apply cell_paint_others|].
  intros ps1 p ps2 Hsplit Hlater.
  rewrite Hsplit. unfold paint. rewrite fold_left_app. simpl.
  fold (paint v ps1). fold (paint (paint_one (paint v ps1) p) ps2).
  rewrite (cell_paint_others ps2 _ _ _ Hlater).
  destruct (paint_shape H W ps1 v Hlen Hall) as (Hlen1 & Hall1).
  assert (Hp : in_bounds (ConsoleGame.board g) p).
  { assert (Hin : p ∈ ps)
      by (rewrite Hsplit; apply elem_of_app; right; constructor).
    apply list_elem_of_fmap in Hin as (q & -> & Hq).
    rewrite Forall_forall in Hone.
    destruct (index_error_protection_one_axis (ConsoleGame.board g) q)
      as (px & py & _ & Hpos & Hpx & Hpy); [lia | lia | by apply Hone |].
    unfold in_bounds, col_in_bounds, row_in_bounds, col, row, maxCol, maxRow.
    rewrite Hpos. simpl. lia. }
  unfold in_bounds, col_in_bounds, row_in_bounds, maxCol, maxRow in Hp.
  destruct (lookup_lt_is_Some_2 (paint v ps1) (Z.to_nat (row p)))
    as [cells Hcells]; [lia|].
  apply (cell_paint_one_self _ _ cells Hcells).
  rewrite Forall_forall in Hall1.
  rewrite (Hall1 cells) by (by eapply list_elem_of_lookup_2). lia.
Qed.

Lemma the_frame_shows_the_last_player_of_a_cell_witness :
  exists g0 g1 g2,
    new_game (blank 3 4) = Return g0 /\
    add_player_by_default "@" (1, 2) g0 = (Return 0%nat, g1) /\
    add_player_by_default "#" (1, 2) g1 = (Return 1%nat, g2) /\
    exists g' frame,
      ConsoleGame._update_and_display_board g2 = (Return tt, g') /\
      read_grid (ConsoleGame.store g') (_Board.board (ConsoleGame.board g')) =
        Some frame /\
      cell frame 2 1 = Some "#"%string /\
      cell frame 0 0 = Some " "%string.
Proof.
  eexists _, _, _.
  split; [vm_compute; reflexivity|].
  split; [vm_compute; reflexivity|].
  split; [vm_compute; reflexivity|].
  match goal with
  | |- context [ConsoleGame._update_and_display_board ?g] => set (g2 := g)
  end.
  destruct (the_frame_shows_the_last_player_of_a_cell g2 3 4 (blank 3 4))
    as (g' & frame & Hredraw & Hframe & Hfree & Hseen).
  - exists [4; 5; 6]%nat. split; [reflexivity|].
    split; [|reflexivity].
    repeat (constructor; [rewrite list_elem_of_In; simpl; lia|]). constructor.
  - reflexivity.
  - repeat constructor.
  - lia.
  - lia.
  - reflexivity.
  - reflexivity.
  - repeat (constructor; [unfold one_axis_at_most, col_in_bounds, row_in_bounds,
                            col, row, maxCol, maxRow; simpl; lia|]).
    constructor.
  - exists g', frame.
    assert (Hps : ConsoleGame.Players g' =
                  [_Player.__init__ "@" (1, 2) (KeyStr "up") (KeyStr "left")
                     (KeyStr "down") (KeyStr "right") false None;
                   _Player.__init__ "#" (1, 2) (KeyStr "up") (KeyStr "left")
                     (KeyStr "down") (KeyStr "right") false None]).
    { assert (Hg' : g' = snd (ConsoleGame._update_and_display_board g2))
        by (by rewrite Hredraw).
      rewrite Hg'. vm_compute. reflexivity. }
    split; [exact Hredraw|]. split; [exact Hframe|]. split.
    + exact (Hseen [_]
               (_Player.__init__ "#" (1, 2) (KeyStr "up") (KeyStr "left")
                  (KeyStr "down") (KeyStr "right") false None)
               [] Hps ltac:(constructor)).
    + rewrite Hfree; [reflexivity|]. rewrite Hps.
      repeat (constructor; [discriminate|]). constructor.
Defined.

(** X18. A game made from a grid literal with a first row is ready: the
    construction returns, the baseline is a copy that holds the value of
    the literal and shares no row, [x] and [y] are the last row index and
    the last index of the first row, there is no entity, nothing is on the
    terminal, the game is not active, and the text of the board is that of
    the literal. *)
Theorem a_game_on_a_literal_is_ready (r0 : list string) (v : list (list string)) :
  exists g,
    new_game (r0 :: v) = Return g /\
    unshared_baseline g (r0 :: v) /\
    _Board.x (ConsoleGame.board g) = Z.of_nat (length v) /\
    _Board.y (ConsoleGame.board g) = Z.of_nat (length r0) - 1 /\
    ConsoleGame.Players g = [] /\ ConsoleGame.Collectibles g = [] /\
    ConsoleGame.console g = [] /\ ConsoleGame._active g = false /\
    _Board.__str__ (ConsoleGame.store g) (ConsoleGame.board g) =
      Return (_Board.render (r0 :: v)).
Proof.
  set (u := r0 :: v).
  assert (Hnew : new_grid [] u = (length u, canvas [] u)).
  { unfold new_grid. rewrite new_rows_spec. unfold alloc, canvas.
    by rewrite !app_nil_l, length_fmap. }
  assert (Hgrid : canvas [] u !! length u = Some (Grid (seq 0 (length u))))
    by apply (canvas_grid [] u).
  assert (Hrows : read_rows (canvas [] u) (seq 0 (length u)) = Some u).
  { pose proof (canvas_read [] u) as Hr. unfold read_grid in Hr.
    simpl in Hr, Hgrid. by rewrite Hgrid in Hr. }
  assert (Hcopy : deepcopy (canvas [] u) (length u) =
                  Return ((length (canvas [] u) + length u)%nat,
                          canvas (canvas [] u) u)).
  { apply (deepcopy_unshared _ _ (seq 0 (length u))); [done | apply NoDup_seq | done]. }
  assert (Hfirst : canvas [] u !! 0%nat = Some (Row r0))
    by apply (canvas_row [] u 0 r0 eq_refl).
  unfold new_game. rewrite Hnew.
  unfold ConsoleGame.__init__, _Board.__init__. rewrite Hgrid.
  change (seq 0 (length u)) with (0%nat :: seq 1 (length v)).
  cbv beta iota. rewrite Hfirst, Hcopy.
  eexists. split; [reflexivity|].
  cbn [ConsoleGame.store ConsoleGame.board ConsoleGame.Players
       ConsoleGame.Collectibles ConsoleGame.console ConsoleGame._active
       _Board.x _Board.y _Board._copy _Board.board].
  split.
  { exists (seq (length (canvas [] u)) (length u)).
    cbn [ConsoleGame.store ConsoleGame.board _Board._copy].
    split; [apply canvas_grid|]. split; [apply NoDup_seq|].
    pose proof (canvas_read (canvas [] u) u) as Hr. unfold read_grid in Hr.
    by rewrite canvas_grid in Hr. }
  split; [cbn [length]; rewrite length_seq; lia|].
  split; [done|]. repeat (split; [done|]).
  unfold _Board.__str__. cbn [_Board.board].
  rewrite (read_grid_agree (canvas [] u) _ (length u) u); [done | |].
  - unfold read_grid. by rewrite Hgrid.
  - intros l Hl. unfold canvas at 1. by apply lookup_app_l.
Qed.

Lemma py_index_below (len : nat) (i : Z) (n : nat) :
  py_index len i = Some n -> (n < len)%nat.
Proof.
  unfold py_index.
  destruct ((0 <=? i) && (i <? Z.of_nat len)) eqn:H1.
  - apply andb_true_iff in H1 as [H0 Hl]. intros [= <-]. lia.
  - destruct ((- Z.of_nat len <=? i) && (i <? 0)) eqn:H2; [|done].
    apply andb_true_iff in H2 as [H0 Hl]. intros [= <-]. lia.
Qed.

Lemma py_index_empty (i : Z) : py_index 0 i = None.
Proof.
  unfold py_index. change (- Z.of_nat 0) with 0. change (Z.of_nat 0) with 0.
  destruct (Z.leb_spec 0 i), (Z.ltb_spec i 0); simpl; try done; lia.
Qed.

(** X19. On a board whose rows are empty no player can be drawn: whatever
    its position, the redraw of a game with a player raises IndexError,
    having cleared the terminal and written nothing. *)
Theorem redraw_on_empty_rows_raises
    (g : ConsoleGame.t) (H : nat) (p : _Player.t) (ps : list _Player.t) :
  shape (ConsoleGame.store g) (_Board._copy (ConsoleGame.board g)) H 0 ->
  ConsoleGame.Players g = p :: ps ->
  fst (ConsoleGame._update_and_display_board g) = Raise IndexError /\
  ConsoleGame.console (snd (ConsoleGame._update_and_display_board g)) =
    ConsoleGame.console g ++ [Clear].
Proof.
  intros Hshape Hps.
  destruct (redraw_unfold g H 0 Hshape) as (w & h1 & (v & Hv & Hlen & Hall) & ->).
  cbv zeta. rewrite Hps. simpl ConsoleGame.display_players.
  destruct (ConsoleGame.index_error_protection _ p) as [[p' px] py].
  assert (Hplace : ConsoleGame.place h1 w px py (_Player.char p') = Raise IndexError).
  { unfold ConsoleGame.place. unfold read_grid in Hv.
    destruct (h1 !! w) as [[?|rs]|]; try done.
    destruct (py_index (length rs) px) as [i|] eqn:Hi; [|done].
    destruct (lookup_lt_is_Some_2 rs i (py_index_below _ _ _ Hi)) as [r Hr].
    rewrite Hr.
    destruct (read_rows_lookup h1 rs v i r Hv Hr) as (cells & -> & Hvi).
    rewrite Forall_forall in Hall.
    rewrite (Hall cells) by (by eapply list_elem_of_lookup_2).
    by rewrite py_index_empty. }
  simpl _Board.board. rewrite Hplace. by split.
Qed.

Lemma redraw_on_empty_rows_raises_witness :
  exists g0 g1,
    new_game [[]; []] = Return g0 /\
    add_player_by_default "@" (0, 0) g0 = (Return 0%nat, g1) /\
    fst (ConsoleGame._update_and_display_board g1) = Raise IndexError /\
    ConsoleGame.console (snd (ConsoleGame._update_and_display_board g1)) = [Clear].
Proof.
  eexists _, _.
  split; [vm_compute; reflexivity|].
  split; [vm_compute; reflexivity|].
  match goal with
  | |- fst (ConsoleGame._update_and_display_board ?g) = _ /\ _ => set (g1 := g)
  end.
  refine (redraw_on_empty_rows_raises g1 2 _ [] _ eq_refl).
  exists [[]; []]. split; [reflexivity|]. split; [reflexivity|].
  repeat constructor.
Defined.

(** ** Edges, settings and keys *)

(** X20. The edges of the board are walls. For a player within bounds, one
    move followed by the clamp of the next redraw leaves it within bounds:
    where the move stays on the board the clamp changes nothing, and where
    the move leaves the board the clamp puts the player back where it
    stood. *)
Theorem the_edges_are_walls (bd : _Board.t) (p : _Player.t) (key : string) :
  in_bounds bd p ->
  let moved := snd (_Player.change_position p key) in
  in_bounds bd (clamped bd moved) /\
  (in_bounds bd moved -> clamped bd moved = moved) /\
  (~ in_bounds bd moved -> clamped bd moved = p).
Proof.
  intros Hin moved. subst moved.
  split; [|split; [apply clamped_in_bounds|]];
    revert Hin;
    unfold in_bounds, col_in_bounds, row_in_bounds, col, row, maxCol, maxRow,
      clamped, ConsoleGame.index_error_protection, _Player.change_position,
      _Player._change_position;
    destruct p as [ch [c r] kl kr ku kd co ac]; simpl;
    intros [Hc Hr];
    (destruct (contains kl key);
     [|destruct (contains kr key);
       [|destruct (contains ku key); [|destruct (contains kd key)]]]);
    simpl;
    repeat (match goal with
            | |- context [?a >? ?b] => destruct (Z.gtb_spec a b)
            | |- context [?a <? ?b] => destruct (Z.ltb_spec a b)
            end; simpl in *);
    try lia; try (intros Hout; exfalso; apply Hout; lia);
    try (intros _; unfold _Player.set_pos; simpl; repeat f_equal; lia).
Qed.

Lemma the_edges_are_walls_witness :
  let bd := {| _Board.board := 0%nat; _Board.x := 4; _Board.y := 4;
               _Board._copy := 1%nat |} in
  let p := _Player.__init__ "@" (4, 0) (KeyStr "up") (KeyStr "left")
             (KeyStr "down") (KeyStr "right") false None in
  in_bounds bd p /\
  clamped bd (snd (_Player.change_position p "right")) = p /\
  clamped bd (snd (_Player.change_position p "up")) = p /\
  _Player.pos (clamped bd (snd (_Player.change_position p "left"))) = (3, 0).
Proof.
  intros bd p.
  assert (Hin : in_bounds bd p).
  { unfold in_bounds, col_in_bounds, row_in_bounds, col, row, maxCol, maxRow.
    simpl. lia. }
  split; [exact Hin|].
  split; [|split].
  - apply (proj2 (proj2 (the_edges_are_walls bd p "right" Hin))).
    unfold in_bounds, col_in_bounds, col, maxCol. simpl. lia.
  - apply (proj2 (proj2 (the_edges_are_walls bd p "up" Hin))).
    unfold in_bounds, row_in_bounds, row, maxRow. simpl. lia.
  - reflexivity.
Defined.

(** The last [initialize] decides: called after [quit] or after an
    earlier [initialize] it gives the state it gives when called alone, so
    a game that was quit restarts with its board, its players and its
    terminal output as they were; and a second [quit] changes nothing. *)
Lemma initialize_overrides_and_quit_is_idempotent
    (g : ConsoleGame.t) (su iu su' iu' : bool)
    (pre post onk pre' post' onk' : option nat) (d d' : Q) :
  ConsoleGame.initialize su iu pre post onk d (snd (ConsoleGame.quit g)) =
    ConsoleGame.initialize su iu pre post onk d g /\
  ConsoleGame.initialize su iu pre post onk d
      (snd (ConsoleGame.initialize su' iu' pre' post' onk' d' g)) =
    ConsoleGame.initialize su iu pre post onk d g /\
  ConsoleGame.quit (snd (ConsoleGame.quit g)) = ConsoleGame.quit g /\
  let g' := snd (ConsoleGame.initialize su iu pre post onk d
                   (snd (ConsoleGame.quit g))) in
  ConsoleGame.Players g' = ConsoleGame.Players g /\
  ConsoleGame.Collectibles g' = ConsoleGame.Collectibles g /\
  ConsoleGame.board g' = ConsoleGame.board g /\
  ConsoleGame.store g' = ConsoleGame.store g /\
  ConsoleGame.console g' = ConsoleGame.console g /\
  ConsoleGame._active g' = true /\
  ConsoleGame._pending_update g' = true.
Proof. by repeat split. Qed.






(** ** The size of a frame *)

Lemma length_append (s t : string) :
  String.length (s +:+ t) = (String.length s + String.length t)%nat.
Proof. induction s as [|c s IH]; simpl; [done | by rewrite IH]. Qed.

Lemma join_cons (c : string) (cells : list string) :
  String.concat "" (c :: cells) = c +:+ String.concat "" cells.
Proof.
  destruct cells as [|c2 cells]; [|reflexivity].
  change (c = c +:+ EmptyString).
  induction c as [|a c IH]; [done|].
  change (String a c = String a (c +:+ EmptyString)). by f_equal.
Qed.

Lemma length_join_single (cells : list string) :
  Forall (fun c => String.length c = 1%nat) cells ->
  String.length (String.concat "" cells) = length cells.
Proof.
  induction 1 as [|c cells Hc Hall IH]; [done|].
  rewrite join_cons, length_append, Hc, IH. done.
Qed.

Lemma length_render (H W : nat) (v : list (list string)) :
  length v = H -> Forall (fun cells => length cells = W) v ->
  single_characters v ->
  String.length (_Board.render v) = (H * (W + 1))%nat.
Proof.
  intros <-. induction v as [|cells v IH]; intros Hall Hone; [done|].
  apply Forall_cons in Hall as [Hw Hall].
  apply Forall_cons in Hone as [Hc Hone].
  simpl. rewrite !length_append, (length_join_single cells Hc), Hw.
  rewrite (IH Hall Hone). simpl. lia.
Qed.

Lemma char_clamped (bd : _Board.t) (p : _Player.t) :
  _Player.char (clamped bd p) = _Player.char p.
Proof.
  unfold clamped, ConsoleGame.index_error_protection.
  repeat (match goal with |- context [if ?b then _ else _] => destruct b end);
    reflexivity.
Qed.

Lemma paint_single_characters (ps : list _Player.t) :
  forall v,
    single_characters v ->
    Forall (fun p => String.length (_Player.char p) = 1%nat) ps ->
    single_characters (paint v ps).
Proof.
  induction ps as [|p ps IH]; intros v Hv Hps; [done|].
  apply Forall_cons in Hps as [Hp Hps]. unfold paint. simpl.
  apply IH; [|done]. unfold paint_one.
  destruct (v !! Z.to_nat (row p)) as [cells|] eqn:Hrow; [|done].
  apply Forall_insert; [done|]. apply Forall_insert; [|done].
  unfold single_characters in Hv. rewrite Forall_forall in Hv.
  apply Hv. by eapply list_elem_of_lookup_2.
Qed.

(** X22. Every frame has the size of the board: when the cells of the
    baseline and the glyphs of the players are single characters, the text
    a redraw writes on a board of [H] by [W] cells is [H * (W + 1)]
    characters long, one line of [W] cells and a newline for each row,
    wherever the players stand. *)
Theorem every_frame_has_the_size_of_the_board
    (g : ConsoleGame.t) (H W : nat) (v : list (list string)) :
  unshared_baseline g v ->
  length v = H -> Forall (fun cells => length cells = W) v ->
  (1 <= H)%nat -> (1 <= W)%nat ->
  _Board.x (ConsoleGame.board g) = Z.of_nat H - 1 ->
  _Board.y (ConsoleGame.board g) = Z.of_nat W - 1 ->
  Forall (one_axis_at_most (ConsoleGame.board g)) (ConsoleGame.Players g) ->
  single_characters v ->
  Forall (fun p => String.length (_Player.char p) = 1%nat) (ConsoleGame.Players g) ->
  exists g' text,
    ConsoleGame._update_and_display_board g = (Return tt, g') /\
    ConsoleGame.console g' = ConsoleGame.console g ++ [Clear; Writeline text] /\
    String.length text = (H * (W + 1))%nat.
Proof.
  intros Hun Hlen Hall HH HW Hx Hy Hone Hcells Hglyphs.
  pose proof (redraw_on_unshared_board g H W v Hun Hlen Hall HH HW Hx Hy Hone)
    as Hredraw.
  cbv zeta in Hredraw. set (ps := map _ _) in Hredraw.
  eexists _, _. split; [exact Hredraw|]. split; [reflexivity|].
  destruct (paint_shape H W ps v Hlen Hall) as (Hlen' & Hall').
  apply (length_render H W); [done | done |].
  apply paint_single_characters; [done|].
  subst ps. apply Forall_forall. intros q Hq.
  apply list_elem_of_fmap in Hq as (q0 & -> & Hq0).
  rewrite char_clamped. rewrite Forall_forall in Hglyphs. by apply Hglyphs.
Qed.

Lemma every_frame_has_the_size_of_the_board_witness :
  exists g0 g1,
    new_game (blank 3 4) = Return g0 /\
    add_player_by_default "@" (9, 1) g0 = (Return 0%nat, g1) /\
    exists g' text,
      ConsoleGame._update_and_display_board g1 = (Return tt, g') /\
      ConsoleGame.console g' = ConsoleGame.console g1 ++ [Clear; Writeline text] /\
      String.length text = 15%nat.
Proof.
  eexists _, _.
  split; [vm_compute; reflexivity|].
  split; [vm_compute; reflexivity|].
  match goal with
  | |- context [ConsoleGame._update_and_display_board ?g] => set (g1 := g)
  end.
  apply (every_frame_has_the_size_of_the_board g1 3 4 (blank 3 4)).
  - exists [4; 5; 6]%nat. split; [reflexivity|].
    split; [|reflexivity].
    repeat (constructor; [rewrite list_elem_of_In; simpl; lia|]). constructor.
  - reflexivity.
  - repeat constructor.
  - lia.
  - lia.
  - reflexivity.
  - reflexivity.
  - repeat (constructor; [unfold one_axis_at_most, col_in_bounds, row_in_bounds,
                            col, row, maxCol, maxRow; simpl; lia|]).
    constructor.
  - repeat constructor.
  - repeat constructor.
Defined.
